(** * File status cache of the proxy (src/proxy/api.py)

    A shallow embedding of [FileInfoCache], [FileInfoHolder] and the
    [get_file] route.  Python objects are records carrying their identity,
    the fields of [FileInfoHolder] live in one [world] record together
    with the observable effects (HTTP requests, sleeps, log lines), and
    every method is a function in a state-and-exception monad over that
    record.  The upstream service is an oracle: the answer to the n-th
    HTTP request is a function of n and of the request. *)

From stdpp Require Import base option list relations sorting gmap strings.
From Equations Require Import Equations.
From Stdlib Require Import Lia.

Set Default Proof Using "Type".
Open Scope string_scope.
Open Scope list_scope.

(** ** JSON payloads *)

(** What [r.json()] yields.  Dictionaries at the top level of a payload are
    [gmap string json]; nested ones are kept as association lists. *)
#[local] Unset Elimination Schemes.
Inductive json : Type :=
| JNull
| JBool (b : bool)
| JInt (n : Z)
| JStr (s : string)
| JList (l : list json)
| JDict (d : list (string * json)).
#[local] Set Elimination Schemes.

(** One element of the listing [GET /file/all]: a dictionary read only
    through [.get('fileId')] and [.get('processingStatus')], which give
    [None] for a missing key. *)
Record entry : Type := Entry {
  fileId : option string;
  processingStatus : option string
}.

(** ** class FileInfoCache *)

(** [oid] is the identity of the Python object (what [is] compares); the
    class defines no [__eq__], so [list.remove] finds objects by it. *)
Record FileInfoCache : Type := mkFileInfoCache {
  oid : nat;
  index : nat;
  file_id : option string;
  status : option string
}.

Definition is_complete (f : FileInfoCache) : bool :=
  bool_decide (status f = Some "FINISHED").

Definition is_processing (f : FileInfoCache) : bool :=
  bool_decide (status f = Some "PROCESSING").

(** [f.status = s] *)
Definition with_status (s : option string) (f : FileInfoCache) : FileInfoCache :=
  {| oid := oid f; index := index f; file_id := file_id f; status := s |}.

(** ** Effects *)

Inductive log_level : Type := INFO | WARNING | ERROR.

Inductive event : Type :=
| EvGetAll (offset limit : nat)        (* GET base_uri/file/all?offset=&limit= *)
| EvGetDetails (fid : string)          (* GET base_uri/file/details/fid *)
| EvGetSegments (fid : string)         (* GET base_uri/file/segments/fid *)
| EvSleep (seconds : nat)              (* time.sleep *)
| EvLog (level : log_level) (msg : string).

Inductive exn : Type :=
| ValueError (msg : string)
| IndexError
| AssertionError
| TransportError.                      (* raised by httpx on a failed request *)

Inductive result (A : Type) : Type :=
| Ok (a : A)
| Raise (e : exn).
Arguments Ok {A} a.
Arguments Raise {A} e.

(** What an HTTP request comes back with: a response, or no response at
    all (connection refused, timeout, ...), in which case httpx raises. *)
Inductive http_result (B : Type) : Type :=
| Response (code : nat) (body : B)
| TransportFailure.
Arguments Response {B} code body.
Arguments TransportFailure {B}.

(** The upstream service.  The first argument is the number of requests
    issued before this one, so that answers may change over time. *)
Record upstream : Type := Upstream {
  file_all : nat -> nat -> nat -> http_result (list entry);
  file_details : nat -> string -> http_result (gmap string json);
  file_segments : nat -> string -> http_result (list json)
}.

(** The fields of [FileInfoHolder], the object allocator and the effects
    observed so far. *)
Record world : Type := World {
  files : list FileInfoCache;
  files_unprocessed : list FileInfoCache;
  last_file_index : nat;
  next_oid : nat;
  clock : nat;
  trace : list event
}.

(** [FileInfoHolder.__init__] *)
Definition init : world :=
  {| files := []; files_unprocessed := []; last_file_index := 0;
     next_oid := 0; clock := 0; trace := [] |}.

Definition set_files (l : list FileInfoCache) (w : world) : world :=
  {| files := l; files_unprocessed := files_unprocessed w;
     last_file_index := last_file_index w; next_oid := next_oid w;
     clock := clock w; trace := trace w |}.

Definition set_files_unprocessed (l : list FileInfoCache) (w : world) : world :=
  {| files := files w; files_unprocessed := l;
     last_file_index := last_file_index w; next_oid := next_oid w;
     clock := clock w; trace := trace w |}.

Definition set_last_file_index (n : nat) (w : world) : world :=
  {| files := files w; files_unprocessed := files_unprocessed w;
     last_file_index := n; next_oid := next_oid w;
     clock := clock w; trace := trace w |}.

Definition set_next_oid (n : nat) (w : world) : world :=
  {| files := files w; files_unprocessed := files_unprocessed w;
     last_file_index := last_file_index w; next_oid := n;
     clock := clock w; trace := trace w |}.

Definition emit (e : event) (w : world) : world :=
  {| files := files w; files_unprocessed := files_unprocessed w;
     last_file_index := last_file_index w; next_oid := next_oid w;
     clock := clock w; trace := trace w ++ [e] |}.

Definition tick (w : world) : world :=
  {| files := files w; files_unprocessed := files_unprocessed w;
     last_file_index := last_file_index w; next_oid := next_oid w;
     clock := S (clock w); trace := trace w |}.

(** [JSONResponse(content, status_code=...)] *)
Record JSONResponse : Type := mkJSONResponse {
  content : gmap string json;
  status_code : nat
}.

(** ** The monad: state, with exceptions that keep the state *)

Definition M (A : Type) : Type := world -> result A * world.

Definition ret {A} (a : A) : M A := fun w => (Ok a, w).

Definition bind {A B} (m : M A) (k : A -> M B) : M B := fun w =>
  match m w with
  | (Ok a, w') => k a w'
  | (Raise e, w') => (Raise e, w')
  end.

Definition raise {A} (e : exn) : M A := fun w => (Raise e, w).

(** [try: m  except BaseException as ex: h ex] *)
Definition try_except {A} (m : M A) (h : exn -> M A) : M A := fun w =>
  match m w with
  | (Ok a, w') => (Ok a, w')
  | (Raise e, w') => h e w'
  end.

Definition gets {A} (f : world -> A) : M A := fun w => (Ok (f w), w).

Definition modify (f : world -> world) : M unit := fun w => (Ok tt, f w).

Declare Scope py_scope.
Delimit Scope py_scope with py.
Notation "x <- m ;; k" := (bind m (fun x => k))
  (at level 100, m at next level, right associativity) : py_scope.
Notation "m ;; k" := (bind m (fun _ => k))
  (at level 100, right associativity) : py_scope.
Open Scope py_scope.

Definition time_sleep (seconds : nat) : M unit := modify (emit (EvSleep seconds)).

Definition logging (level : log_level) (msg : string) : M unit :=
  modify (emit (EvLog level msg)).

(** [FileInfoCache(index=, file_id=, status=)]: a fresh object. *)
Definition new_FileInfoCache (i : nat) (fid st : option string) : M FileInfoCache :=
  fun w => (Ok (mkFileInfoCache (next_oid w) i fid st), set_next_oid (S (next_oid w)) w).

(** [l.remove(f)]: drops the first element that is [f]; ValueError when
    there is none. *)
Fixpoint list_remove (f : FileInfoCache) (l : list FileInfoCache) : option (list FileInfoCache) :=
  match l with
  | [] => None
  | g :: l' =>
      if bool_decide (oid g = oid f) then Some l'
      else match list_remove f l' with
           | Some r => Some (g :: r)
           | None => None
           end
  end.

(** [page[0]] *)
Definition subscript0 {A} (page : list A) : M A :=
  match page with
  | [] => raise IndexError
  | x :: _ => ret x
  end.

(** ** class FileInfoHolder *)

Section FileInfoHolder.

Variable api : upstream.

(** [httpx.get(base_uri + '/file/all', params=...)] *)
Definition httpx_get_all (offset limit : nat) : M (nat * list entry) := fun w =>
  let w' := tick (emit (EvGetAll offset limit) w) in
  match file_all api (clock w) offset limit with
  | Response c b => (Ok (c, b), w')
  | TransportFailure => (Raise TransportError, w')
  end.

Definition httpx_get_details (fid : string) : M (nat * gmap string json) := fun w =>
  let w' := tick (emit (EvGetDetails fid) w) in
  match file_details api (clock w) fid with
  | Response c b => (Ok (c, b), w')
  | TransportFailure => (Raise TransportError, w')
  end.

Definition httpx_get_segments (fid : string) : M (nat * list json) := fun w =>
  let w' := tick (emit (EvGetSegments fid) w) in
  match file_segments api (clock w) fid with
  | Response c b => (Ok (c, b), w')
  | TransportFailure => (Raise TransportError, w')
  end.

Definition fetch_files_info (offset limit : nat) : M (list entry) :=
  r <- httpx_get_all offset limit ;;
  if negb (bool_decide (r.1 = 200)) then
    logging WARNING "Request failed: %s" ;;
    ret []
  else ret r.2.

(** The body of [for idx, f in enumerate(files)] in [poll_for_new_files]. *)
Fixpoint poll_append (last_index idx : nat) (fs : list entry) : M unit :=
  match fs with
  | [] => ret tt
  | f :: fs' =>
      o <- new_FileInfoCache (last_index + idx) (fileId f) (processingStatus f) ;;
      modify (fun w => set_files_unprocessed (files_unprocessed w ++ [o]) w) ;;
      poll_append last_index (S idx) fs'
  end.

Definition poll_for_new_files : M bool :=
  last_index <- gets last_file_index ;;
  logging INFO "fetch files from index: %s" ;;
  fs <- fetch_files_info last_index 5 ;;
  poll_append last_index 0 fs ;;
  modify (fun w => set_last_file_index (last_file_index w + length fs) w) ;;
  ret (bool_decide (length fs = 0)).

(** One turn of [while True] in [poll_event_loop]. *)
Definition poll_event_loop_body : M unit :=
  try_except
    (do_sleep <- poll_for_new_files ;;
     if (do_sleep : bool) then time_sleep 5 else ret tt)
    (fun ex => logging ERROR "File listing failed").

(** [f.status = s] for the object met at position [i] of
    [self.files_unprocessed]. *)
Definition set_status (i : nat) (s : option string) : M unit :=
  modify (fun w => set_files_unprocessed (alter (with_status s) i (files_unprocessed w)) w).

(** The block under [if f.is_processing():] for the object [f] met at
    position [i]; the value is [f] as it is after the block. *)
Definition refresh (f : FileInfoCache) (i : nat) : M FileInfoCache :=
  if is_processing f then
    page <- fetch_files_info (index f) 1 ;;
    st <- subscript0 page ;;
    if negb (bool_decide (fileId st = file_id f)) then
      raise (ValueError "Server returned invalid fileId at position: %s")
    else
      set_status i (processingStatus st) ;;
      ret (with_status (processingStatus st) f)
  else ret f.

(** The first loop of [check_file_status]: [todo] is what is left of
    [self.files_unprocessed] to iterate on, [i] the position reached. *)
Fixpoint check_each (todo : list FileInfoCache) (i : nat)
    (completed failed : list FileInfoCache)
    : M (list FileInfoCache * list FileInfoCache) :=
  match todo with
  | [] => ret (completed, failed)
  | f :: todo' =>
      f <- refresh f i ;;
      if is_complete f then check_each todo' (S i) (completed ++ [f]) failed
      else if negb (is_processing f) then check_each todo' (S i) completed (failed ++ [f])
      else check_each todo' (S i) completed failed
  end.

(** [for f in ...: self.files_unprocessed.remove(f)] *)
Fixpoint remove_each (fs : list FileInfoCache) : M unit :=
  match fs with
  | [] => ret tt
  | f :: fs' =>
      l <- gets files_unprocessed ;;
      match list_remove f l with
      | None => raise (ValueError "list.remove(x): x not in list")
      | Some l' => modify (set_files_unprocessed l') ;; remove_each fs'
      end
  end.

(** [for f in completed: self.files.append(f)] *)
Fixpoint append_each (fs : list FileInfoCache) : M unit :=
  match fs with
  | [] => ret tt
  | f :: fs' => modify (fun w => set_files (files w ++ [f]) w) ;; append_each fs'
  end.

(** One pass: [check_file_status] up to its last [if]; the value is the
    local list [completed]. *)
Definition check_pass : M (list FileInfoCache) :=
  todo <- gets files_unprocessed ;;
  cf <- check_each todo 0 [] [] ;;
  let '(completed, failed) := cf in
  remove_each (completed ++ failed) ;;
  append_each completed ;;
  ret completed.

Definition fetch_file_details (fid : string) : M (gmap string json) :=
  r <- httpx_get_details fid ;;
  if negb (bool_decide (r.1 = 200)) then raise AssertionError else ret r.2.

Definition fetch_file_segments (fid : string) : M (list json) :=
  r <- httpx_get_segments fid ;;
  if negb (bool_decide (r.1 = 200)) then raise AssertionError else ret r.2.

Definition fetch_and_combine_file_info (fid : string) : M (gmap string json) :=
  details <- fetch_file_details fid ;;
  segments <- fetch_file_segments fid ;;
  ret (<["segments" := JList segments]> details).

(** ** The route [GET /{file_id}] *)

Definition not_found : gmap string json :=
  {[ "error" := JInt 404; "text" := JStr "File info not found" ]}.

Definition get_file (fid : string) : M JSONResponse :=
  fs <- gets files ;;
  match List.find (fun x => bool_decide (file_id x = Some fid)) fs with
  | None => ret (mkJSONResponse not_found 404)
  | Some _ =>
      details <- fetch_and_combine_file_info fid ;;
      ret (mkJSONResponse details 200)
  end.

(** The status the client sees: Starlette's error middleware answers 500
    when the handler of a route raises. *)
Definition served_status (r : result JSONResponse) : nat :=
  match r with
  | Ok resp => status_code resp
  | Raise _ => 500
  end.

(** *** What one pass does to the cache *)

(** The world once [fetch_files_info offset limit] has run. *)
Definition after_fetch (offset limit : nat) (w : world) : world :=
  let w' := tick (emit (EvGetAll offset limit) w) in
  match file_all api (clock w) offset limit with
  | Response c _ =>
      if bool_decide (c = 200) then w' else emit (EvLog WARNING "Request failed: %s") w'
  | TransportFailure => w'
  end.

(** How the block under [if f.is_processing():] ends for [f] when its
    request is the [t]-th one: with the status read, or with an exception. *)
Definition status_fetch (t : nat) (f : FileInfoCache) : result (option string) :=
  match file_all api t (index f) 1 with
  | TransportFailure => Raise TransportError
  | Response c b =>
      if bool_decide (c = 200) then
        match b with
        | [] => Raise IndexError
        | st :: _ =>
            if bool_decide (fileId st = file_id f) then Ok (processingStatus st)
            else Raise (ValueError "Server returned invalid fileId at position: %s")
        end
      else Raise IndexError
  end.

Definition fetch_event (f : FileInfoCache) : event := EvGetAll (index f) 1.

Definition is_warning (e : event) : Prop :=
  match e with EvLog WARNING _ => True | _ => False end.

(** Neither the in-progress nor the finished sentinel. *)
Definition is_other (f : FileInfoCache) : bool :=
  negb (is_complete f) && negb (is_processing f).

Definition same_object (f g : FileInfoCache) : Prop :=
  oid g = oid f /\ index g = index f /\ file_id g = file_id f.

(** [g] is [f] after the first loop went over it. *)
Definition refreshed (f g : FileInfoCache) : Prop :=
  same_object f g /\ (is_processing f = false -> g = f).

End FileInfoHolder.

(** * Properties *)

Ltac monad_unfold :=
  repeat progress
    (unfold time_sleep, logging, subscript0, set_status,
       bind, ret, raise, gets, modify, try_except in *; cbn beta iota in *).

Section Properties.

Variable api : upstream.

Lemma world_eta (w : world) :
  {| files := files w; files_unprocessed := files_unprocessed w;
     last_file_index := last_file_index w; next_oid := next_oid w;
     clock := clock w; trace := trace w |} = w.
Proof. by destruct w. Qed.

Lemma fetch_files_info_eq (offset limit : nat) (w : world) :
  fetch_files_info api offset limit w =
  (match file_all api (clock w) offset limit with
   | Response c b => Ok (if bool_decide (c = 200) then b else [])
   | TransportFailure => Raise TransportError
   end, after_fetch api offset limit w).
Proof.
  unfold fetch_files_info, after_fetch, httpx_get_all. monad_unfold.
  destruct (file_all api (clock w) offset limit) as [c b|]; simpl; [|done].
  by destruct (bool_decide (c = 200)).
Qed.

Lemma after_fetch_frame (offset limit : nat) (w : world) :
  files (after_fetch api offset limit w) = files w /\
  files_unprocessed (after_fetch api offset limit w) = files_unprocessed w /\
  last_file_index (after_fetch api offset limit w) = last_file_index w /\
  next_oid (after_fetch api offset limit w) = next_oid w /\
  clock (after_fetch api offset limit w) = S (clock w) /\
  exists warn, trace (after_fetch api offset limit w) = trace w ++ EvGetAll offset limit :: warn /\
    Forall is_warning warn.
Proof.
  unfold after_fetch.
  destruct (file_all api (clock w) offset limit) as [c b|]; simpl.
  - destruct (bool_decide (c = 200)); simpl; repeat split; try done.
    + by exists [].
    + exists [EvLog WARNING "Request failed: %s"]. rewrite <- app_assoc. split; [done|].
      by repeat constructor.
  - repeat split; try done. by exists [].
Qed.

Lemma refresh_eq (f : FileInfoCache) (i : nat) (w : world) :
  refresh api f i w =
  if is_processing f then
    match status_fetch api (clock w) f with
    | Ok s =>
        (Ok (with_status s f),
         set_files_unprocessed
           (alter (with_status s) i (files_unprocessed w))
           (tick (emit (fetch_event f) w)))
    | Raise e => (Raise e, after_fetch api (index f) 1 w)
    end
  else (Ok f, w).
Proof.
  unfold refresh. destruct (is_processing f); [|done].
  unfold bind at 1. rewrite fetch_files_info_eq.
  unfold status_fetch, after_fetch, fetch_event.
  destruct (file_all api (clock w) (index f) 1) as [c b|]; [|done].
  destruct (bool_decide (c = 200)); [|done].
  destruct b as [|st b]; monad_unfold; [done|].
  destruct (decide (fileId st = file_id f)) as [E|E].
  - by rewrite !bool_decide_true by done.
  - by rewrite !bool_decide_false by done.
Qed.

Lemma check_each_cons (f : FileInfoCache) (todo : list FileInfoCache) (i : nat)
    (c fl : list FileInfoCache) (w : world) :
  check_each api (f :: todo) i c fl w =
  match refresh api f i w with
  | (Ok f', w') =>
      check_each api todo (S i)
        (c ++ List.filter is_complete [f']) (fl ++ List.filter is_other [f']) w'
  | (Raise e, w') => (Raise e, w')
  end.
Proof.
  simpl. unfold bind at 1.
  destruct (refresh api f i w) as [[f'|e] w']; [|done].
  unfold is_other.
  destruct (is_complete f'), (is_processing f'); simpl; by rewrite ?app_nil_r.
Qed.

Lemma filter_cons_app {A} (P : A -> bool) (x : A) (l : list A) :
  List.filter P (x :: l) = List.filter P [x] ++ List.filter P l.
Proof. simpl. by destruct (P x). Qed.

Lemma filter_cons_true {A} (P : A -> bool) (x : A) (l : list A) :
  P x = true -> List.filter P (x :: l) = x :: List.filter P l.
Proof. simpl. by intros ->. Qed.

Lemma filter_cons_false {A} (P : A -> bool) (x : A) (l : list A) :
  P x = false -> List.filter P (x :: l) = List.filter P l.
Proof. simpl. by intros ->. Qed.

Lemma refreshed_refl (f : FileInfoCache) : refreshed f f.
Proof. by repeat split. Qed.

(** The first loop of a pass, started at position [length done]: it stops
    normally after the whole of [todo], or at the first in-progress object
    whose status fetch fails; objects keep their place, identity, index
    and file_id; there is one request per in-progress object visited. *)
Lemma check_each_spec (todo : list FileInfoCache) :
  forall (done rest c fl : list FileInfoCache) (w : world) r w1,
  files_unprocessed w = done ++ todo ++ rest ->
  check_each api todo (length done) c fl w = (r, w1) ->
  exists visited visited' unvisited,
    todo = visited ++ unvisited /\
    Forall2 refreshed visited visited' /\
    files_unprocessed w1 = done ++ visited' ++ unvisited ++ rest /\
    files w1 = files w /\
    last_file_index w1 = last_file_index w /\
    next_oid w1 = next_oid w /\
    match r with
    | Ok cf =>
        unvisited = [] /\
        cf = (c ++ List.filter is_complete visited',
              fl ++ List.filter is_other visited') /\
        trace w1 = trace w ++ map fetch_event (List.filter is_processing visited) /\
        clock w1 = clock w + length (List.filter is_processing visited)
    | Raise e =>
        exists f unv warn,
          unvisited = f :: unv /\
          is_processing f = true /\
          status_fetch api (clock w + length (List.filter is_processing visited)) f
            = Raise e /\
          trace w1 = trace w ++ map fetch_event (List.filter is_processing visited)
                       ++ fetch_event f :: warn /\
          Forall is_warning warn
    end.
Proof.
  induction todo as [|f todo IH]; intros done rest c fl w r w1 Hfu Hrun.
  - simpl in Hrun. unfold ret in Hrun. injection Hrun as <- <-.
    exists [], [], []. simpl. rewrite !app_nil_r, Nat.add_0_r.
    repeat split; done || constructor.
  - rewrite check_each_cons, refresh_eq in Hrun.
    destruct (is_processing f) eqn:Hp.
    + destruct (status_fetch api (clock w) f) as [s|e] eqn:Hs.
      * set (f' := with_status s f) in *.
        set (w' := set_files_unprocessed _ _) in Hrun.
        assert (Hfu' : files_unprocessed w' = (done ++ [f']) ++ todo ++ rest).
        { subst w'. simpl. rewrite Hfu, <- app_assoc. simpl.
          rewrite <- (Nat.add_0_r (length done)). by rewrite alter_app_r. }
        replace (S (length done)) with (length (done ++ [f'])) in Hrun
          by (rewrite length_app; simpl; lia).
        destruct (IH _ _ _ _ _ _ _ Hfu' Hrun)
          as (v & v' & u & -> & Hv & Hfu1 & Hf & Hl & Hn & Hr).
        exists (f :: v), (f' :: v'), u. split; [done|]. split.
        { constructor; [|done]. split; [done|]. by rewrite Hp. }
        split. { by rewrite Hfu1, <- app_assoc. }
        repeat (split; [done|]).
        destruct r as [cf|e].
        -- destruct Hr as (-> & -> & Htr & Hck).
           split; [done|]. split.
           { by rewrite (filter_cons_app is_complete f' v'),
               (filter_cons_app is_other f' v'), !app_assoc. }
           rewrite (filter_cons_true is_processing f v Hp). simpl. split.
           { rewrite Htr. subst w'. simpl. by rewrite <- app_assoc. }
           rewrite Hck. subst w'. simpl. lia.
        -- destruct Hr as (g & unv & warn & -> & Hg & Hsg & Htr & Hw).
           exists g, unv, warn. split; [done|]. split; [done|].
           rewrite (filter_cons_true is_processing f v Hp). simpl. split.
           { rewrite <- Hsg. f_equal. subst w'. simpl. lia. }
           split; [|done]. rewrite Htr. subst w'. simpl. by rewrite <- app_assoc.
      * injection Hrun as <- <-.
        destruct (after_fetch_frame (index f) 1 w)
          as (Hf & Hu & Hl & Hn & Hc & warn & Htr & Hw).
        exists [], [], (f :: todo). simpl.
        split; [done|]. split; [constructor|]. split; [by rewrite Hu, Hfu|].
        repeat (split; [done|]).
        exists f, todo, warn. rewrite Nat.add_0_r. by repeat split.
    + replace (S (length done)) with (length (done ++ [f])) in Hrun
        by (rewrite length_app; simpl; lia).
      assert (Hfu' : files_unprocessed w = (done ++ [f]) ++ todo ++ rest).
      { by rewrite Hfu, <- app_assoc. }
      destruct (IH _ _ _ _ _ _ _ Hfu' Hrun)
        as (v & v' & u & -> & Hv & Hfu1 & Hf & Hl & Hn & Hr).
      exists (f :: v), (f :: v'), u. split; [done|]. split.
      { constructor; [apply refreshed_refl|done]. }
      split. { by rewrite Hfu1, <- app_assoc. }
      repeat (split; [done|]).
      rewrite (filter_cons_false is_processing f v Hp).
      destruct r as [cf|e]; [|done].
      destruct Hr as (-> & -> & Htr & Hck).
      split; [done|]. split; [|done].
      by rewrite (filter_cons_app is_complete f v'), (filter_cons_app is_other f v'),
        !app_assoc.
Qed.

(** *** Removing from and appending to the two lists *)

Lemma elem_of_filter_bool {A} (P : A -> bool) (x : A) (l : list A) :
  x ∈ List.filter P l <-> x ∈ l /\ P x = true.
Proof. rewrite !list_elem_of_In. apply filter_In. Qed.

Lemma filter_bool_length {A} (P : A -> bool) (l : list A) :
  length (List.filter P l) <= length l.
Proof. induction l as [|x l IH]; simpl; [lia|]. destruct (P x); simpl; lia. Qed.

Lemma list_remove_length (f : FileInfoCache) (l l' : list FileInfoCache) :
  list_remove f l = Some l' -> length l = S (length l').
Proof.
  revert l'. induction l as [|g l IH]; intros l' H; simpl in H; [done|].
  destruct (bool_decide (oid g = oid f)).
  - by injection H as <-.
  - destruct (list_remove f l) as [r|]; [|done]. injection H as <-.
    simpl. by rewrite (IH r).
Qed.

Lemma list_remove_filter (f : FileInfoCache) (l : list FileInfoCache) :
  NoDup (map oid l) -> oid f ∈ map oid l ->
  list_remove f l =
  Some (List.filter (fun g => negb (bool_decide (oid g = oid f))) l).
Proof.
  induction l as [|g l IH]; simpl; intros Hnd Hin.
  - by apply elem_of_nil in Hin.
  - apply NoDup_cons in Hnd as [Hg Hnd]. case_bool_decide as Hgf; simpl.
    + f_equal. symmetry. apply forallb_filter_id, forallb_forall.
      intros h Hh. apply negb_true_iff, bool_decide_eq_false. intros E.
      apply Hg. rewrite Hgf, <- E. apply list_elem_of_fmap_2.
      by apply list_elem_of_In.
    + apply elem_of_cons in Hin as [E|Hin]; [by symmetry in E|].
      by rewrite IH.
Qed.

Lemma filter_filter_oid (f : FileInfoCache) (fs l : list FileInfoCache) :
  List.filter (fun g => negb (bool_decide (oid g ∈ map oid fs)))
    (List.filter (fun g => negb (bool_decide (oid g = oid f))) l) =
  List.filter (fun g => negb (bool_decide (oid g ∈ map oid (f :: fs)))) l.
Proof.
  induction l as [|g l IH]; [done|]. cbn [List.filter map].
  destruct (decide (oid g = oid f)) as [E|E].
  - rewrite (bool_decide_true (oid g = oid f)) by done.
    rewrite (bool_decide_true (oid g ∈ _ :: _)) by (rewrite E; left). done.
  - rewrite (bool_decide_false (oid g = oid f)) by done.
    cbn [negb List.filter]. rewrite IH.
    destruct (decide (oid g ∈ map oid fs)) as [I|I].
    + rewrite (bool_decide_true (oid g ∈ map oid fs)) by done.
      rewrite (bool_decide_true (oid g ∈ _ :: _)) by (by right). done.
    + rewrite (bool_decide_false (oid g ∈ map oid fs)) by done.
      rewrite (bool_decide_false (oid g ∈ _ :: _)); [done|].
      by intros [?|?]%elem_of_cons.
Qed.

Lemma NoDup_map_filter {B} (key : FileInfoCache -> B) (P : FileInfoCache -> bool)
    (l : list FileInfoCache) :
  NoDup (map key l) -> NoDup (map key (List.filter P l)).
Proof.
  induction l as [|g l IH]; [done|]. cbn [List.filter map].
  intros [Hg Hnd]%NoDup_cons. destruct (P g); [|by apply IH].
  cbn [map]. apply NoDup_cons. split; [|by apply IH].
  intros (h & E & Hh)%list_elem_of_fmap. apply elem_of_filter_bool in Hh as [Hh _].
  apply Hg. rewrite E. by apply list_elem_of_fmap_2.
Qed.

Lemma remove_each_frame (fs : list FileInfoCache) :
  forall (w : world) r w1,
  remove_each fs w = (r, w1) ->
  files w1 = files w /\ last_file_index w1 = last_file_index w /\
  next_oid w1 = next_oid w /\ clock w1 = clock w /\ trace w1 = trace w /\
  match r with
  | Ok _ => length (files_unprocessed w1) + length fs = length (files_unprocessed w)
  | Raise _ => True
  end.
Proof.
  induction fs as [|f fs IH]; intros w r w1 H; simpl in H.
  - unfold ret in H. injection H as <- <-. repeat split; simpl; lia.
  - monad_unfold.
    destruct (list_remove f (files_unprocessed w)) as [l'|] eqn:Hrm.
    + apply IH in H as (-> & -> & -> & -> & -> & Hr). repeat split; try done.
      destruct r; [|done]. apply list_remove_length in Hrm. simpl in *. lia.
    + by injection H as <- <-.
Qed.

Lemma remove_each_filter (fs : list FileInfoCache) :
  forall w : world,
  NoDup (map oid (files_unprocessed w)) -> NoDup (map oid fs) ->
  (forall f, f ∈ fs -> oid f ∈ map oid (files_unprocessed w)) ->
  remove_each fs w =
  (Ok tt,
   set_files_unprocessed
     (List.filter (fun g => negb (bool_decide (oid g ∈ map oid fs)))
        (files_unprocessed w)) w).
Proof.
  induction fs as [|f fs IH]; intros w Hnd Hfs Hin; simpl.
  - unfold ret. f_equal. unfold set_files_unprocessed.
    rewrite <- (world_eta w) at 1. f_equal. symmetry.
    apply forallb_filter_id, forallb_forall. by intros h _.
  - apply NoDup_cons in Hfs as [Hf Hfs]. monad_unfold.
    rewrite list_remove_filter by (done || apply Hin; left).
    rewrite IH; cbn [files_unprocessed set_files_unprocessed].
    + by rewrite filter_filter_oid.
    + by apply (NoDup_map_filter oid).
    + done.
    + intros h Hh. specialize (Hin h (list_elem_of_further _ _ _ Hh)).
      apply list_elem_of_fmap in Hin as (g & E & Hg).
      rewrite E. apply list_elem_of_fmap_2, elem_of_filter_bool. split; [done|].
      apply negb_true_iff, bool_decide_eq_false. intros E'. apply Hf.
      rewrite <- E', <- E. by apply list_elem_of_fmap_2.
Qed.

Lemma append_each_eq (fs : list FileInfoCache) (w : world) :
  append_each fs w = (Ok tt, set_files (files w ++ fs) w).
Proof.
  revert w. induction fs as [|f fs IH]; intros w; simpl.
  - unfold ret, set_files. rewrite app_nil_r. by rewrite world_eta.
  - monad_unfold. rewrite IH. unfold set_files. simpl. by rewrite <- app_assoc.
Qed.

Lemma check_pass_unfold (w : world) :
  check_pass api w =
  match check_each api (files_unprocessed w) 0 [] [] w with
  | (Ok (completed, failed), w1) =>
      match remove_each (completed ++ failed) w1 with
      | (Ok _, w2) => (Ok completed, set_files (files w2 ++ completed) w2)
      | (Raise e, w2) => (Raise e, w2)
      end
  | (Raise e, w1) => (Raise e, w1)
  end.
Proof.
  unfold check_pass. monad_unfold.
  destruct (check_each api (files_unprocessed w) 0 [] [] w) as [[[c fl]|e] w1]; [|done].
  destruct (remove_each (c ++ fl) w1) as [[[]|e] w2]; [|done].
  by rewrite append_each_eq.
Qed.

(** A pass that promotes something leaves fewer objects in
    [files_unprocessed]: the recursion of [check_file_status] ends. *)
Lemma check_pass_decreases (w w' : world) (f : FileInfoCache) (completed : list FileInfoCache) :
  check_pass api w = (Ok (f :: completed), w') ->
  length (files_unprocessed w') < length (files_unprocessed w).
Proof.
  rewrite check_pass_unfold.
  destruct (check_each api (files_unprocessed w) 0 [] [] w) as [[[c fl]|e] w1] eqn:H1; [|done].
  destruct (remove_each (c ++ fl) w1) as [[[]|e] w2] eqn:H2; [|done].
  intros [= -> <-].
  apply (check_each_spec _ [] []) in H1
    as (v & v' & u & Hv & HF & Hfu & _ & _ & _ & -> & _); [|by rewrite app_nil_r].
  apply remove_each_frame in H2 as (_ & _ & _ & _ & _ & Hlen).
  rewrite app_nil_r in Hv. subst v. apply Forall2_length in HF.
  simpl in *. rewrite !app_nil_r in Hfu. rewrite Hfu in Hlen.
  rewrite length_app in Hlen. simpl in Hlen. lia.
Qed.

Definition inspect {A : Type} (x : A) : {y : A | x = y} := exist _ x eq_refl.

(** [check_file_status]: a pass, and the whole again when the pass has
    promoted something.  (Python's bound on the depth of recursion is not
    modelled.) *)
Equations? check_file_status (w : world) : result unit * world
    by wf (length (files_unprocessed w)) lt :=
  check_file_status w with inspect (check_pass api w) := {
    | exist _ (Ok nil, w') _ := (Ok tt, w');
    | exist _ (Ok (cons _ _), w') H := check_file_status w';
    | exist _ (Raise e, w') _ := (Raise e, w') }.
Proof. by eapply check_pass_decreases. Qed.

(** One turn of [while True] in [check_event_loop]. *)
Definition check_event_loop_body : M unit :=
  try_except check_file_status (fun ex => logging ERROR "File checking failed") ;;
  time_sleep 5.

(** *** A pass on a cache whose objects are pairwise distinct *)

Lemma complete_not_processing (f : FileInfoCache) :
  is_complete f = true -> is_processing f = false.
Proof.
  unfold is_complete, is_processing. intros H%bool_decide_eq_true.
  apply bool_decide_eq_false. by rewrite H.
Qed.

Lemma other_or_complete (f : FileInfoCache) :
  is_processing f = false -> is_complete f = true \/ is_other f = true.
Proof. unfold is_other. intros ->. destruct (is_complete f); auto. Qed.

Lemma NoDup_map_inj {A B} (g : A -> B) (l : list A) (x y : A) :
  NoDup (map g l) -> x ∈ l -> y ∈ l -> g x = g y -> x = y.
Proof.
  induction l as [|a l IH]; simpl; intros Hnd Hx Hy E.
  - by apply elem_of_nil in Hx.
  - apply NoDup_cons in Hnd as [Ha Hnd].
    apply elem_of_cons in Hx as [->|Hx]; apply elem_of_cons in Hy as [->|Hy].
    + done.
    + exfalso. apply Ha. rewrite E. by apply list_elem_of_fmap_2.
    + exfalso. apply Ha. rewrite <- E. by apply list_elem_of_fmap_2.
    + by apply IH.
Qed.

Lemma refreshed_maps (l l' : list FileInfoCache) :
  Forall2 refreshed l l' ->
  map oid l' = map oid l /\ map index l' = map index l /\
  map file_id l' = map file_id l.
Proof.
  induction 1 as [|f g l l' [(Ho & Hi & Hf) _] _ (IHo & IHi & IHf)]; [done|].
  simpl. by rewrite Ho, Hi, Hf, IHo, IHi, IHf.
Qed.

Lemma removed_is_not_processing (l : list FileInfoCache) :
  NoDup (map oid l) ->
  List.filter
    (fun g => negb (bool_decide
       (oid g ∈ map oid (List.filter is_complete l ++ List.filter is_other l)))) l =
  List.filter is_processing l.
Proof.
  intros Hnd. apply filter_ext_in. intros g Hg%list_elem_of_In.
  destruct (is_processing g) eqn:Hp.
  - apply negb_true_iff, bool_decide_eq_false.
    intros (h & E & Hh)%list_elem_of_fmap.
    assert (h ∈ l /\ is_processing h = false) as [Hhl Hhp].
    { apply elem_of_app in Hh as [Hh|Hh]; apply elem_of_filter_bool in Hh as [? Hh].
      - split; [done|]. by apply complete_not_processing.
      - split; [done|]. unfold is_other in Hh.
        apply andb_true_iff in Hh as [_ Hh]. by apply negb_true_iff. }
    assert (g = h) as -> by by apply (NoDup_map_inj oid l). congruence.
  - apply negb_false_iff, bool_decide_eq_true, list_elem_of_fmap_2.
    apply elem_of_app.
    destruct (other_or_complete g Hp); [left|right]; by apply elem_of_filter_bool.
Qed.

Lemma NoDup_filter_app {B} (key : FileInfoCache -> B) (P Q : FileInfoCache -> bool)
    (l : list FileInfoCache) :
  (forall x, P x = true -> Q x = false) ->
  NoDup (map key l) ->
  NoDup (map key (List.filter P l ++ List.filter Q l)).
Proof.
  intros HPQ Hnd. rewrite map_app. apply NoDup_app.
  split; [by apply NoDup_map_filter|]. split; [|by apply NoDup_map_filter].
  intros o (g & -> & Hg)%list_elem_of_fmap (h & E & Hh)%list_elem_of_fmap.
  apply elem_of_filter_bool in Hg as [Hg Hc], Hh as [Hh Ho].
  assert (g = h) as -> by by apply (NoDup_map_inj key l).
  by rewrite (HPQ h Hc) in Ho.
Qed.

Lemma NoDup_removed (l : list FileInfoCache) :
  NoDup (map oid l) ->
  NoDup (map oid (List.filter is_complete l ++ List.filter is_other l)).
Proof.
  apply NoDup_filter_app. intros x Hx. unfold is_other. by rewrite Hx.
Qed.

(** When the first loop gets through, the pass promotes the finished
    objects, keeps the in-progress ones and drops the others. *)
Lemma check_pass_sweep (w w1 : world) (cf : list FileInfoCache * list FileInfoCache) :
  NoDup (map oid (files_unprocessed w)) ->
  check_each api (files_unprocessed w) 0 [] [] w = (Ok cf, w1) ->
  Forall2 refreshed (files_unprocessed w) (files_unprocessed w1) /\
  cf = (List.filter is_complete (files_unprocessed w1),
        List.filter is_other (files_unprocessed w1)) /\
  check_pass api w =
  (Ok (List.filter is_complete (files_unprocessed w1)),
   set_files (files w ++ List.filter is_complete (files_unprocessed w1))
     (set_files_unprocessed (List.filter is_processing (files_unprocessed w1)) w1)).
Proof.
  intros Hnd H1. rewrite check_pass_unfold, H1.
  apply (check_each_spec _ [] []) in H1
    as (v & v' & u & Hv & HF & Hfu & Hf & _ & _ & -> & -> & _); [|by rewrite app_nil_r].
  simpl in Hfu. rewrite !app_nil_r in Hfu. rewrite app_nil_r in Hv. subst v.
  rewrite Hfu. split; [done|]. split; [done|]. simpl.
  assert (Hnd' : NoDup (map oid v')).
  { by destruct (refreshed_maps _ _ HF) as (-> & _). }
  rewrite remove_each_filter.
  - rewrite Hfu, removed_is_not_processing by done. by rewrite <- Hf.
  - by rewrite Hfu.
  - by apply NoDup_removed.
  - intros f Hin. rewrite Hfu. apply list_elem_of_fmap_2.
    by apply elem_of_app in Hin as [Hin|Hin]; apply elem_of_filter_bool in Hin as [? _].
Qed.

Lemma check_pass_raise (w w1 : world) (e : exn) :
  check_each api (files_unprocessed w) 0 [] [] w = (Raise e, w1) ->
  check_pass api w = (Raise e, w1).
Proof. intros H. by rewrite check_pass_unfold, H. Qed.

Lemma check_each_app (pre post : list FileInfoCache) :
  forall (i : nat) (c fl : list FileInfoCache) (w : world),
  check_each api (pre ++ post) i c fl w =
  match check_each api pre i c fl w with
  | (Ok cf, w1) => check_each api post (i + length pre) cf.1 cf.2 w1
  | (Raise e, w1) => (Raise e, w1)
  end.
Proof.
  induction pre as [|f pre IH]; intros i c fl w.
  - simpl. unfold ret. by rewrite Nat.add_0_r.
  - rewrite <- app_comm_cons, !check_each_cons.
    destruct (refresh api f i w) as [[f'|e] w']; [|done].
    rewrite IH. simpl length. by rewrite Nat.add_succ_r.
Qed.

Lemma check_file_status_eq (w : world) :
  check_file_status w =
  match check_pass api w with
  | (Ok [], w') => (Ok tt, w')
  | (Ok (_ :: _), w') => check_file_status w'
  | (Raise e, w') => (Raise e, w')
  end.
Proof.
  funelim (check_file_status w).
  all: match goal with H : check_pass api _ = _ |- _ => rewrite H end.
  all: done.
Qed.

(** The turn of the checker's loop always comes back, whatever the pass did. *)
Lemma check_event_loop_body_eq (w : world) :
  check_event_loop_body w =
  match check_file_status w with
  | (Ok _, w') => (Ok tt, emit (EvSleep 5) w')
  | (Raise _, w') =>
      (Ok tt, emit (EvSleep 5) (emit (EvLog ERROR "File checking failed") w'))
  end.
Proof.
  unfold check_event_loop_body. monad_unfold.
  by destruct (check_file_status w) as [[[]|e] w'].
Qed.

(** What a pass does, on a cache whose objects are pairwise distinct:
    [l1] is [files_unprocessed] as the first loop leaves it. *)
Lemma check_pass_spec (w w' : world) (r : result (list FileInfoCache)) :
  NoDup (map oid (files_unprocessed w)) ->
  check_pass api w = (r, w') ->
  exists l1,
    Forall2 refreshed (files_unprocessed w) l1 /\
    last_file_index w' = last_file_index w /\
    next_oid w' = next_oid w /\
    match r with
    | Ok c =>
        c = List.filter is_complete l1 /\
        files w' = files w ++ c /\
        files_unprocessed w' = List.filter is_processing l1
    | Raise _ => files w' = files w /\ files_unprocessed w' = l1
    end.
Proof.
  intros Hnd Hp.
  destruct (check_each api (files_unprocessed w) 0 [] [] w) as [[cf|e] w1] eqn:H1.
  - destruct (check_pass_sweep _ _ _ Hnd H1) as (HF & _ & Heq).
    rewrite Heq in Hp. injection Hp as <- <-.
    apply (check_each_spec _ [] []) in H1
      as (_ & _ & _ & _ & _ & _ & _ & Hl & Hn & _); [|by rewrite app_nil_r].
    exists (files_unprocessed w1). by repeat split.
  - rewrite (check_pass_raise _ _ _ H1) in Hp. injection Hp as <- <-.
    apply (check_each_spec _ [] []) in H1
      as (v & v' & u & Hv & HF & Hfu & Hf & Hl & Hn & _); [|by rewrite app_nil_r].
    rewrite app_nil_r in Hfu. simpl in Hfu.
    exists (files_unprocessed w1). repeat split; try done.
    rewrite Hv, Hfu. apply Forall2_app; [done|].
    apply Forall_Forall2_diag, Forall_forall. intros; apply refreshed_refl.
Qed.

(** *** [poll_for_new_files] *)

(** The objects made for a page when the allocator is at [o] and the
    cursor at [i]. *)
Fixpoint created (o i : nat) (page : list entry) : list FileInfoCache :=
  match page with
  | [] => []
  | e :: page' =>
      mkFileInfoCache o i (fileId e) (processingStatus e) :: created (S o) (S i) page'
  end.

(** The page [poll_for_new_files] works on, for an answer of the upstream. *)
Definition page_of (h : http_result (list entry)) : list entry :=
  match h with
  | Response c b => if bool_decide (c = 200) then b else []
  | TransportFailure => []
  end.

Lemma created_maps (o i : nat) (page : list entry) :
  map oid (created o i page) = seq o (length page) /\
  map index (created o i page) = seq i (length page) /\
  map file_id (created o i page) = map fileId page /\
  map status (created o i page) = map processingStatus page.
Proof.
  revert o i. induction page as [|e page IH]; intros o i; [done|].
  destruct (IH (S o) (S i)) as (Ho & Hi & Hf & Hs). simpl.
  by rewrite Ho, Hi, Hf, Hs.
Qed.

Lemma poll_append_eq (last : nat) (fs : list entry) :
  forall (idx : nat) (w : world),
  poll_append last idx fs w =
  (Ok tt,
   set_next_oid (next_oid w + length fs)
     (set_files_unprocessed
        (files_unprocessed w ++ created (next_oid w) (last + idx) fs) w)).
Proof.
  induction fs as [|f fs IH]; intros idx w; simpl.
  - unfold ret, set_next_oid, set_files_unprocessed. simpl.
    by rewrite Nat.add_0_r, app_nil_r, world_eta.
  - unfold new_FileInfoCache. monad_unfold. rewrite IH.
    unfold set_next_oid, set_files_unprocessed. simpl.
    by rewrite <- app_assoc, !Nat.add_succ_r.
Qed.

Lemma poll_for_new_files_eq (w : world) :
  poll_for_new_files api w =
  let w0 := after_fetch api (last_file_index w) 5
              (emit (EvLog INFO "fetch files from index: %s") w) in
  match file_all api (clock w) (last_file_index w) 5 with
  | TransportFailure => (Raise TransportError, w0)
  | Response c b =>
      let page := if bool_decide (c = 200) then b else [] in
      (Ok (bool_decide (length page = 0)),
       set_last_file_index (last_file_index w + length page)
         (set_next_oid (next_oid w + length page)
            (set_files_unprocessed
               (files_unprocessed w ++ created (next_oid w) (last_file_index w) page)
               w0)))
  end.
Proof.
  unfold poll_for_new_files. monad_unfold.
  rewrite fetch_files_info_eq. simpl.
  destruct (file_all api (clock w) (last_file_index w) 5) as [c b|] eqn:Hr; [|done].
  rewrite poll_append_eq. simpl.
  destruct (after_fetch_frame (last_file_index w) 5
              (emit (EvLog INFO "fetch files from index: %s") w))
    as (_ & -> & -> & -> & _).
  simpl. by rewrite Nat.add_0_r.
Qed.

(** One turn of the poller's loop always comes back; it appends the
    objects made for the page and moves the cursor by the page's length. *)
Lemma poll_event_loop_body_spec (w : world) :
  let page := page_of (file_all api (clock w) (last_file_index w) 5) in
  exists w' evs,
    poll_event_loop_body api w = (Ok tt, w') /\
    files w' = files w /\
    files_unprocessed w' =
      files_unprocessed w ++ created (next_oid w) (last_file_index w) page /\
    last_file_index w' = last_file_index w + length page /\
    next_oid w' = next_oid w + length page /\
    trace w' = trace w ++ evs.
Proof.
  unfold poll_event_loop_body. monad_unfold. rewrite poll_for_new_files_eq.
  destruct (after_fetch_frame (last_file_index w) 5
              (emit (EvLog INFO "fetch files from index: %s") w))
    as (Hf & Hu & Hl & Hn & Hc & warn & Htr & _).
  simpl in Hf, Hu, Hl, Hn, Hc, Htr. rewrite <- app_assoc in Htr.
  destruct (file_all api (clock w) (last_file_index w) 5) as [c b|]; simpl.
  - destruct (bool_decide (length (if bool_decide (c = 200) then b else []) = 0)).
    + eexists _, _. split; [done|]. simpl. rewrite Htr, <- app_assoc. by repeat split.
    + eexists _, _. split; [done|]. simpl. by repeat split.
  - eexists _, _. split; [done|]. simpl.
    rewrite Hf, Hu, Hl, Hn, Htr, <- app_assoc, app_nil_r, !Nat.add_0_r. by repeat split.
Qed.

(** ** Reachable states *)

Definition all_files (w : world) : list FileInfoCache :=
  files w ++ files_unprocessed w.

(** Every object is held once, under an identity the allocator has given
    out and an index below the cursor. *)
Definition wf (w : world) : Prop :=
  NoDup (map oid (all_files w)) /\
  NoDup (map index (all_files w)) /\
  Forall (fun o => o < next_oid w) (map oid (all_files w)) /\
  Forall (fun i => i < last_file_index w) (map index (all_files w)).

(** What can happen to the cache: a turn of the poller, a pass of the
    checker (ended or aborted), a log line or a sleep, a lookup. *)
Inductive step : world -> world -> Prop :=
| step_poll w : step w (poll_event_loop_body api w).2
| step_pass w : step w (check_pass api w).2
| step_effect w e : step w (emit e w)
| step_get_file w fid : step w (get_file api fid w).2.

Definition reachable (w : world) : Prop := rtc step init w.

Lemma check_file_status_steps (w : world) : rtc step w (check_file_status w).2.
Proof.
  funelim (check_file_status w).
  - match goal with H : check_pass api ?w = (_, ?w') |- _ =>
      replace w' with (check_pass api w).2 by by rewrite H end.
    apply rtc_once, step_pass.
  - match goal with H : check_pass api ?w = (_, ?w') |- _ =>
      apply (rtc_l _ _ w'); [|done];
      replace w' with (check_pass api w).2 by by rewrite H end.
    apply step_pass.
  - match goal with H : check_pass api ?w = (_, ?w') |- _ =>
      replace w' with (check_pass api w).2 by by rewrite H end.
    apply rtc_once, step_pass.
Qed.

(** A turn of the checker's loop is passes, then a log line at most, then
    the sleep. *)
Lemma check_event_loop_body_steps (w : world) :
  rtc step w (check_event_loop_body w).2.
Proof.
  rewrite check_event_loop_body_eq.
  pose proof (check_file_status_steps w) as H.
  destruct (check_file_status w) as [[[]|e] w']; simpl in *.
  - eapply rtc_r; [done|]. apply step_effect.
  - eapply rtc_r; [|apply step_effect]. eapply rtc_r; [done|]. apply step_effect.
Qed.

Lemma fetch_and_combine_file_info_eq (fid : string) (w : world) :
  fetch_and_combine_file_info api fid w =
  let w1 := tick (emit (EvGetDetails fid) w) in
  match file_details api (clock w) fid with
  | TransportFailure => (Raise TransportError, w1)
  | Response c d =>
      if bool_decide (c = 200) then
        let w2 := tick (emit (EvGetSegments fid) w1) in
        match file_segments api (S (clock w)) fid with
        | TransportFailure => (Raise TransportError, w2)
        | Response c' s =>
            if bool_decide (c' = 200) then (Ok (<["segments" := JList s]> d), w2)
            else (Raise AssertionError, w2)
        end
      else (Raise AssertionError, w1)
  end.
Proof.
  unfold fetch_and_combine_file_info, fetch_file_details, fetch_file_segments,
    httpx_get_details, httpx_get_segments. monad_unfold.
  destruct (file_details api (clock w) fid) as [c d|]; simpl; [|done].
  destruct (bool_decide (c = 200)); simpl; [|done].
  destruct (file_segments api (S (clock w)) fid) as [c' s|]; simpl; [|done].
  by destruct (bool_decide (c' = 200)).
Qed.

Lemma get_file_frame (fid : string) (w : world) :
  files (get_file api fid w).2 = files w /\
  files_unprocessed (get_file api fid w).2 = files_unprocessed w /\
  last_file_index (get_file api fid w).2 = last_file_index w /\
  next_oid (get_file api fid w).2 = next_oid w.
Proof.
  unfold get_file. monad_unfold.
  destruct (List.find _ (files w)); [|done].
  rewrite fetch_and_combine_file_info_eq. simpl.
  destruct (file_details api (clock w) fid) as [c d|]; simpl; [|done].
  destruct (bool_decide (c = 200)); simpl; [|done].
  destruct (file_segments api (S (clock w)) fid) as [c' s|]; simpl; [|done].
  by destruct (bool_decide (c' = 200)).
Qed.

Lemma wf_frame (w w' : world) :
  files w' = files w -> files_unprocessed w' = files_unprocessed w ->
  last_file_index w' = last_file_index w -> next_oid w' = next_oid w ->
  wf w -> wf w'.
Proof. unfold wf, all_files. by intros -> -> -> ->. Qed.

Lemma wf_init : wf init.
Proof. repeat split; constructor. Qed.

Lemma promote_NoDup {B} (key : FileInfoCache -> B) (fs l : list FileInfoCache) :
  NoDup (map key (fs ++ l)) ->
  NoDup (map key ((fs ++ List.filter is_complete l) ++ List.filter is_processing l)).
Proof.
  rewrite <- app_assoc, !map_app.
  intros (Hfs & Hdis & Hl)%NoDup_app. apply NoDup_app. split; [done|]. split.
  - intros x Hx Hin. apply (Hdis x Hx).
    rewrite <- map_app in Hin. apply list_elem_of_fmap in Hin as (g & -> & Hg).
    apply list_elem_of_fmap_2.
    by apply elem_of_app in Hg as [Hg|Hg]; apply elem_of_filter_bool in Hg as [? _].
  - rewrite <- map_app.
    by apply NoDup_filter_app; [apply complete_not_processing|].
Qed.

Lemma promote_Forall {B} (key : FileInfoCache -> B) (P : B -> Prop)
    (fs l : list FileInfoCache) :
  Forall P (map key (fs ++ l)) ->
  Forall P (map key ((fs ++ List.filter is_complete l) ++ List.filter is_processing l)).
Proof.
  rewrite !Forall_forall. intros H x (g & -> & Hg)%list_elem_of_fmap.
  apply H, list_elem_of_fmap_2. rewrite <- app_assoc in Hg.
  apply elem_of_app in Hg as [Hg|Hg]; apply elem_of_app; [by left|right].
  by apply elem_of_app in Hg as [Hg|Hg]; apply elem_of_filter_bool in Hg as [? _].
Qed.

Lemma wf_pass (w : world) : wf w -> wf (check_pass api w).2.
Proof.
  intros (Ho & Hi & Hbo & Hbi). unfold all_files in *.
  assert (Hnd : NoDup (map oid (files_unprocessed w))).
  { rewrite map_app in Ho. by apply NoDup_app in Ho as (_ & _ & ?). }
  destruct (check_pass api w) as [r w'] eqn:Hp. simpl.
  destruct (check_pass_spec _ _ _ Hnd Hp) as (l1 & HF & Hl & Hn & Hr).
  destruct (refreshed_maps _ _ HF) as (Hmo & Hmi & _).
  assert (Ho1 : map oid (files w ++ l1) = map oid (files w ++ files_unprocessed w))
    by by rewrite !map_app, Hmo.
  assert (Hi1 : map index (files w ++ l1) = map index (files w ++ files_unprocessed w))
    by by rewrite !map_app, Hmi.
  rewrite <- Ho1 in Ho, Hbo. rewrite <- Hi1 in Hi, Hbi.
  unfold wf, all_files. rewrite Hl, Hn. destruct r as [c|e].
  - destruct Hr as (-> & -> & ->).
    repeat split; by (apply promote_NoDup || apply promote_Forall).
  - by destruct Hr as (-> & ->).
Qed.

Lemma wf_poll (w : world) : wf w -> wf (poll_event_loop_body api w).2.
Proof.
  intros (Ho & Hi & Hbo & Hbi).
  destruct (poll_event_loop_body_spec w) as (w' & evs & -> & Hf & Hu & Hl & Hn & _).
  simpl. unfold wf, all_files in *. rewrite Hf, Hu, Hl, Hn, !app_assoc, !map_app.
  set (page := page_of _).
  destruct (created_maps (next_oid w) (last_file_index w) page) as (-> & -> & _).
  rewrite Forall_forall in Hbo, Hbi. rewrite !map_app in Ho, Hi, Hbo, Hbi.
  repeat split.
  - apply NoDup_app. split; [done|]. split; [|apply NoDup_seq].
    intros x Hx%Hbo Hs%elem_of_seq. lia.
  - apply NoDup_app. split; [done|]. split; [|apply NoDup_seq].
    intros x Hx%Hbi Hs%elem_of_seq. lia.
  - apply Forall_forall. intros x [Hx%Hbo|Hx%elem_of_seq]%elem_of_app; lia.
  - apply Forall_forall. intros x [Hx%Hbi|Hx%elem_of_seq]%elem_of_app; lia.
Qed.

Lemma wf_step (w w' : world) : step w w' -> wf w -> wf w'.
Proof.
  destruct 1 as [w|w|w e|w fid].
  - apply wf_poll.
  - apply wf_pass.
  - by apply wf_frame.
  - destruct (get_file_frame fid w) as (? & ? & ? & ?). by apply wf_frame.
Qed.

Lemma wf_steps (w w' : world) : rtc step w w' -> wf w -> wf w'.
Proof. induction 1; eauto using wf_step. Qed.

Lemma wf_reachable (w : world) : reachable w -> wf w.
Proof. intros H. apply (wf_steps _ _ H), wf_init. Qed.

(** ** The detail aggregator and the lookup route *)

(** C7. [fetch_and_combine_file_info] reads the details, then the segments,
    each once; when both answers are 200 its value is the details
    dictionary with key "segments" set to the segment list; an answer other
    than 200 to either read ends the call with an AssertionError, after
    that read and without another request. *)
Theorem aggregator_merge (fid : string) (w : world) :
  (forall d s,
     file_details api (clock w) fid = Response 200 d ->
     file_segments api (S (clock w)) fid = Response 200 s ->
     exists w',
       fetch_and_combine_file_info api fid w
         = (Ok (<["segments" := JList s]> d), w') /\
       trace w' = trace w ++ [EvGetDetails fid; EvGetSegments fid]) /\
  (forall c d,
     file_details api (clock w) fid = Response c d -> c <> 200 ->
     exists w',
       fetch_and_combine_file_info api fid w = (Raise AssertionError, w') /\
       trace w' = trace w ++ [EvGetDetails fid]) /\
  (forall d c s,
     file_details api (clock w) fid = Response 200 d ->
     file_segments api (S (clock w)) fid = Response c s -> c <> 200 ->
     exists w',
       fetch_and_combine_file_info api fid w = (Raise AssertionError, w') /\
       trace w' = trace w ++ [EvGetDetails fid; EvGetSegments fid]).
Proof.
  rewrite fetch_and_combine_file_info_eq. cbv zeta. repeat split.
  - intros d s -> ->. simpl. eexists. split; [done|]. simpl. by rewrite <- app_assoc.
  - intros c d -> Hc. rewrite bool_decide_false by done. by eexists.
  - intros d c s -> -> Hc. simpl. rewrite bool_decide_false by done.
    eexists. split; [done|]. simpl. by rewrite <- app_assoc.
Qed.

Lemma find_none_iff (fid : string) (l : list FileInfoCache) :
  List.find (fun x => bool_decide (file_id x = Some fid)) l = None <->
  Forall (fun x => file_id x <> Some fid) l.
Proof.
  induction l as [|x l IH]; simpl; [by split; [constructor|]|].
  case_bool_decide as E.
  - split; [done|]. by intros [? _]%Forall_cons.
  - rewrite IH, Forall_cons. split; [by split|by intros [_ ?]].
Qed.

(** C1. [get_file]: for a file_id that no object of [files] carries, the
    answer is 404 with the not-found body and nothing else happens (no
    request, no change of the cache).  For one that [files] carries, the
    aggregator runs: when both reads are answered with 200 the answer is
    200 with the details dictionary in which "segments" is the segment
    list, after exactly those two requests; when a read is answered with
    another status the handler ends with the AssertionError; whatever the
    aggregator raises leaves the handler as an exception, which is served
    as a 500; the status served is never 404. *)
Theorem get_file_lookup (fid : string) (w : world) :
  (Forall (fun x => file_id x <> Some fid) (files w) ->
   get_file api fid w = (Ok (mkJSONResponse not_found 404), w)) /\
  ((exists x, x ∈ files w /\ file_id x = Some fid) ->
   (forall d s,
      file_details api (clock w) fid = Response 200 d ->
      file_segments api (S (clock w)) fid = Response 200 s ->
      exists w',
        get_file api fid w
          = (Ok (mkJSONResponse (<["segments" := JList s]> d) 200), w') /\
        trace w' = trace w ++ [EvGetDetails fid; EvGetSegments fid]) /\
   (forall c d,
      file_details api (clock w) fid = Response c d -> c <> 200 ->
      exists w', get_file api fid w = (Raise AssertionError, w')) /\
   (forall d c s,
      file_details api (clock w) fid = Response 200 d ->
      file_segments api (S (clock w)) fid = Response c s -> c <> 200 ->
      exists w', get_file api fid w = (Raise AssertionError, w')) /\
   (forall details w',
      fetch_and_combine_file_info api fid w = (Ok details, w') ->
      get_file api fid w = (Ok (mkJSONResponse details 200), w')) /\
   (forall e w',
      fetch_and_combine_file_info api fid w = (Raise e, w') ->
      get_file api fid w = (Raise e, w') /\
      served_status (get_file api fid w).1 = 500) /\
   served_status (get_file api fid w).1 <> 404) /\
  not_found !! "error" = Some (JInt 404) /\
  not_found !! "text" = Some (JStr "File info not found").
Proof.
  split; [|split; [|done]].
  - intros H%find_none_iff. unfold get_file. monad_unfold. by rewrite H.
  - intros (x & Hx & Hfid).
    assert (Hfind : exists y,
      List.find (fun x => bool_decide (file_id x = Some fid)) (files w) = Some y).
    { destruct (List.find _ (files w)) as [y|] eqn:E; [by exists y|].
      apply find_none_iff in E. rewrite Forall_forall in E. by destruct (E x Hx). }
    destruct Hfind as [y Hy].
    assert (Hget : get_file api fid w =
              match fetch_and_combine_file_info api fid w with
              | (Ok details, w') => (Ok (mkJSONResponse details 200), w')
              | (Raise e, w') => (Raise e, w')
              end).
    { unfold get_file. monad_unfold. rewrite Hy.
      by destruct (fetch_and_combine_file_info api fid w) as [[details|e] w']. }
    rewrite Hget. repeat split.
    + intros d s Hd Hs. rewrite fetch_and_combine_file_info_eq, Hd, Hs. simpl.
      eexists. split; [done|]. simpl. by rewrite <- app_assoc.
    + intros c d Hd Hc. rewrite fetch_and_combine_file_info_eq, Hd. cbv zeta.
      rewrite bool_decide_false by done. by eexists.
    + intros d c s Hd Hs Hc. rewrite fetch_and_combine_file_info_eq, Hd, Hs. simpl.
      rewrite bool_decide_false by done. by eexists.
    + by intros details w' ->.
    + by rewrite H.
    + by rewrite H.
    + by destruct (fetch_and_combine_file_info api fid w) as [[details|e] w'].
Qed.

(** ** The status checker *)

Definition is_sleep (e : event) : Prop :=
  match e with EvSleep _ => True | _ => False end.

(** A pass that ends: what it promotes goes to the end of [files]; its
    only effects are the status requests. *)
Lemma check_pass_ok_frame (w w' : world) (completed : list FileInfoCache) :
  check_pass api w = (Ok completed, w') ->
  files w' = files w ++ completed /\
  last_file_index w' = last_file_index w /\
  next_oid w' = next_oid w /\
  trace w' = trace w ++ map fetch_event (List.filter is_processing (files_unprocessed w)).
Proof.
  rewrite check_pass_unfold.
  destruct (check_each api (files_unprocessed w) 0 [] [] w) as [[[c fl]|e] w1] eqn:H1; [|done].
  destruct (remove_each (c ++ fl) w1) as [[[]|e] w2] eqn:H2; [|done].
  intros [= -> <-]. simpl.
  apply (check_each_spec _ [] []) in H1
    as (v & v' & u & Hv & _ & _ & Hf & Hl & Hn & -> & _ & Htr & _);
    [|by rewrite app_nil_r].
  apply remove_each_frame in H2 as (-> & -> & -> & _ & -> & _).
  rewrite !app_nil_r in Hv. subst v. by rewrite Hf, Hl, Hn, Htr.
Qed.

(** A pass that meets, after the objects [pre], an in-progress object [f]
    whose status fetch fails with [e]: the pass and [check_file_status]
    end with [e] there; the loop logs it and sleeps. *)
Lemma check_pass_abort (w w1 : world) (pre post : list FileInfoCache)
    (f : FileInfoCache) (cf : list FileInfoCache * list FileInfoCache) (e : exn) :
  files_unprocessed w = pre ++ f :: post ->
  check_each api pre 0 [] [] w = (Ok cf, w1) ->
  is_processing f = true ->
  status_fetch api (clock w1) f = Raise e ->
  exists w2 pre',
    check_pass api w = (Raise e, w2) /\
    check_event_loop_body w =
      (Ok tt, emit (EvSleep 5) (emit (EvLog ERROR "File checking failed") w2)) /\
    files w2 = files w /\
    last_file_index w2 = last_file_index w /\
    Forall2 refreshed pre pre' /\
    files_unprocessed w2 = pre' ++ f :: post.
Proof.
  intros Hfu Hpre Hp Hs.
  assert (Hrun : check_each api (files_unprocessed w) 0 [] [] w
                 = (Raise e, after_fetch api (index f) 1 w1)).
  { by rewrite Hfu, check_each_app, Hpre, check_each_cons, refresh_eq, Hp, Hs. }
  exists (after_fetch api (index f) 1 w1).
  apply (check_each_spec _ [] (f :: post)) in Hpre
    as (v & v' & u & Hv & HF & Hfu1 & Hf & Hl & _ & -> & _); [|done].
  rewrite app_nil_r in Hv. subst v. simpl in Hfu1.
  destruct (after_fetch_frame (index f) 1 w1) as (Hf2 & Hu2 & Hl2 & _).
  exists v'. rewrite check_event_loop_body_eq, check_file_status_eq.
  rewrite (check_pass_raise _ _ _ Hrun), Hf2, Hu2, Hl2.
  by repeat split.
Qed.

(** C3. After a pass of [check_file_status] that has promoted at least
    one object, the pass is run again at once: what the function, and the
    turn of the loop around it, do from there is what they do from the
    state the pass left, and the pass itself has not slept.  After a pass
    that has promoted nothing (whatever it discarded) the turn of the loop
    ends with the sleep of 5 and nothing else. *)
Theorem check_rerun_or_wait (w : world) :
  (forall f completed w',
     check_pass api w = (Ok (f :: completed), w') ->
     files w' = files w ++ f :: completed /\
     (exists evs, trace w' = trace w ++ evs /\ Forall (fun e => ~ is_sleep e) evs) /\
     check_file_status w = check_file_status w' /\
     check_event_loop_body w = check_event_loop_body w') /\
  (forall w',
     check_pass api w = (Ok [], w') ->
     files w' = files w /\
     check_event_loop_body w = (Ok tt, emit (EvSleep 5) w')).
Proof.
  split.
  - intros f completed w' Hp.
    destruct (check_pass_ok_frame _ _ _ Hp) as (Hf & _ & _ & Htr).
    split; [done|]. split.
    { eexists. split; [done|]. apply Forall_forall.
      intros e (g & -> & _)%list_elem_of_fmap. by intros []. }
    assert (E : check_file_status w = check_file_status w')
      by by rewrite (check_file_status_eq w), Hp.
    split; [done|]. by rewrite !check_event_loop_body_eq, E.
  - intros w' Hp. destruct (check_pass_ok_frame _ _ _ Hp) as (Hf & _).
    rewrite app_nil_r in Hf. split; [done|].
    by rewrite check_event_loop_body_eq, check_file_status_eq, Hp.
Qed.

(** C4. A pass that, after the objects [pre] of [files_unprocessed],
    comes to an in-progress object [f] and reads for it an entry with
    another file_id ends with the ValueError: [files] is as before the
    pass, [files_unprocessed] holds the same objects at the same places
    ([f] as it was, those after it untouched, those before it with the
    status just read), the turn of the loop logs the error, sleeps 5 and
    comes back. *)
Theorem mismatch_aborts_pass (w w1 : world) (pre post : list FileInfoCache)
    (f : FileInfoCache) (cf : list FileInfoCache * list FileInfoCache)
    (st : entry) (page : list entry) :
  files_unprocessed w = pre ++ f :: post ->
  check_each api pre 0 [] [] w = (Ok cf, w1) ->
  is_processing f = true ->
  (fetch_files_info api (index f) 1 w1).1 = Ok (st :: page) ->
  fileId st <> file_id f ->
  exists w2 pre',
    check_pass api w
      = (Raise (ValueError "Server returned invalid fileId at position: %s"), w2) /\
    files w2 = files w /\
    files_unprocessed w2 = pre' ++ f :: post /\
    Forall2 refreshed pre pre' /\
    last_file_index w2 = last_file_index w /\
    check_event_loop_body w =
      (Ok tt, emit (EvSleep 5) (emit (EvLog ERROR "File checking failed") w2)).
Proof.
  intros Hfu Hpre Hp Hfetch Hne.
  assert (Hs : status_fetch api (clock w1) f
               = Raise (ValueError "Server returned invalid fileId at position: %s")).
  { rewrite fetch_files_info_eq in Hfetch. unfold status_fetch. simpl in Hfetch.
    destruct (file_all api (clock w1) (index f) 1) as [c b|]; [|done].
    destruct (bool_decide (c = 200)); [|done].
    injection Hfetch as ->. by rewrite bool_decide_false. }
  destruct (check_pass_abort _ _ _ _ _ _ _ Hfu Hpre Hp Hs)
    as (w2 & pre' & ? & ? & ? & ? & ? & ?).
  by exists w2, pre'.
Qed.

(** C10 (as the code has it). A status fetch answered with a status
    other than 200 gives the empty list.  A pass that, after the objects
    [pre] of [files_unprocessed], comes to an in-progress object [f] whose
    status fetch gives the empty list ends with the IndexError of [[0]];
    one whose status fetch fails in transport ends with the transport
    error, raised out of the fetch.  Either way nothing is promoted and
    nothing leaves [files_unprocessed] (the objects before [f] keep the
    status they were just given, [f] and those after it are as they were),
    and the turn of the loop logs the error and sleeps 5 before any other
    pass. *)
Theorem failed_status_fetch_aborts_pass (w w1 : world) (pre post : list FileInfoCache)
    (f : FileInfoCache) (cf : list FileInfoCache * list FileInfoCache) :
  files_unprocessed w = pre ++ f :: post ->
  check_each api pre 0 [] [] w = (Ok cf, w1) ->
  is_processing f = true ->
  (forall c b,
     file_all api (clock w1) (index f) 1 = Response c b -> c <> 200 ->
     (fetch_files_info api (index f) 1 w1).1 = Ok []) /\
  ((fetch_files_info api (index f) 1 w1).1 = Ok [] ->
   exists w2 pre',
     check_pass api w = (Raise IndexError, w2) /\
     files w2 = files w /\
     files_unprocessed w2 = pre' ++ f :: post /\
     Forall2 refreshed pre pre' /\
     check_event_loop_body w =
       (Ok tt, emit (EvSleep 5) (emit (EvLog ERROR "File checking failed") w2))) /\
  (file_all api (clock w1) (index f) 1 = TransportFailure ->
   (fetch_files_info api (index f) 1 w1).1 = Raise TransportError /\
   exists w2 pre',
     check_pass api w = (Raise TransportError, w2) /\
     files w2 = files w /\
     files_unprocessed w2 = pre' ++ f :: post /\
     Forall2 refreshed pre pre' /\
     check_event_loop_body w =
       (Ok tt, emit (EvSleep 5) (emit (EvLog ERROR "File checking failed") w2))).
Proof.
  intros Hfu Hpre Hp. split; [|split].
  - intros c b Hr Hc. rewrite fetch_files_info_eq, Hr. simpl.
    by rewrite bool_decide_false.
  - intros Hfetch.
    assert (Hs : status_fetch api (clock w1) f = Raise IndexError).
    { rewrite fetch_files_info_eq in Hfetch. unfold status_fetch. simpl in Hfetch.
      destruct (file_all api (clock w1) (index f) 1) as [c b|]; [|done].
      destruct (bool_decide (c = 200)); [|done]. by injection Hfetch as ->. }
    destruct (check_pass_abort _ _ _ _ _ _ _ Hfu Hpre Hp Hs)
      as (w2 & pre' & ? & ? & ? & ? & ? & ?).
    by exists w2, pre'.
  - intros Hr. split; [by rewrite fetch_files_info_eq, Hr|].
    assert (Hs : status_fetch api (clock w1) f = Raise TransportError).
    { unfold status_fetch. by rewrite Hr. }
    destruct (check_pass_abort _ _ _ _ _ _ _ Hfu Hpre Hp Hs)
      as (w2 & pre' & ? & ? & ? & ? & ? & ?).
    by exists w2, pre'.
Qed.

(** ** Invariants of the cache *)

(** [f] carries the file_id that some listing answer gave at its index. *)
Definition delivered (f : FileInfoCache) : Prop :=
  exists t o l b k e,
    file_all api t o l = Response 200 b /\ b !! k = Some e /\
    fileId e = file_id f /\ o + k = index f.

Lemma same_object_refl (f : FileInfoCache) : same_object f f.
Proof. by repeat split. Qed.

Lemma refreshed_elem_of (l l1 : list FileInfoCache) (g : FileInfoCache) :
  Forall2 refreshed l l1 -> g ∈ l1 -> exists f, f ∈ l /\ refreshed f g.
Proof.
  induction 1 as [|f g' l l1 Hfg _ IH]; [by intros ?%elem_of_nil|].
  intros [->|Hg]%elem_of_cons.
  - exists f. split; [left|done].
  - destruct (IH Hg) as (f' & ? & ?). exists f'. split; [by right|done].
Qed.

Lemma created_elem_of (page : list entry) :
  forall (o i : nat) (f : FileInfoCache),
  f ∈ created o i page ->
  exists k e, page !! k = Some e /\
    f = mkFileInfoCache (o + k) (i + k) (fileId e) (processingStatus e).
Proof.
  induction page as [|e page IH]; intros o i f; simpl; [by intros ?%elem_of_nil|].
  intros [->|Hf]%elem_of_cons.
  - exists 0, e. by rewrite !Nat.add_0_r.
  - destruct (IH _ _ _ Hf) as (k & e' & Hk & ->). exists (S k), e'.
    by rewrite !Nat.add_succ_r.
Qed.

Lemma page_of_lookup (h : http_result (list entry)) (k : nat) (e : entry) :
  page_of h !! k = Some e -> exists b, h = Response 200 b /\ b !! k = Some e.
Proof.
  destruct h as [c b|]; simpl; [|done]. case_bool_decide as Hc; [|done].
  subst c. by exists b.
Qed.

Lemma wf_refreshed (w : world) (l1 : list FileInfoCache) :
  wf w -> Forall2 refreshed (files_unprocessed w) l1 ->
  wf (set_files_unprocessed l1 w).
Proof.
  intros Hwf HF. destruct (refreshed_maps _ _ HF) as (Ho & Hi & _).
  unfold wf, all_files in *. simpl. rewrite !map_app, Ho, Hi, <- !map_app. done.
Qed.

(** A step keeps what is in [files], never moves the counters back, and
    every object held after it is one held before it (up to its status) or
    a new one, made for a listing entry under a fresh identity and index. *)
Lemma step_objects (w w' : world) :
  step w w' -> wf w ->
  next_oid w <= next_oid w' /\
  last_file_index w <= last_file_index w' /\
  (forall g, g ∈ files w -> g ∈ files w') /\
  (forall g, g ∈ files_unprocessed w' ->
     (exists f, f ∈ files_unprocessed w /\ same_object f g) \/
     (next_oid w <= oid g /\ last_file_index w <= index g /\ delivered g)) /\
  (forall g, g ∈ files w' ->
     g ∈ files w \/ exists f, f ∈ files_unprocessed w /\ same_object f g).
Proof.
  destruct 1 as [w|w|w e|w fid]; intros Hwf.
  - destruct (poll_event_loop_body_spec w) as (w' & evs & -> & Hf & Hu & Hl & Hn & _).
    simpl. rewrite Hf, Hu, Hl, Hn. split; [lia|]. split; [lia|]. split; [done|].
    split; [|by left].
    intros g [Hg|Hg]%elem_of_app.
    + left. exists g. split; [done|apply same_object_refl].
    + right. apply created_elem_of in Hg as (k & e & Hk & ->). simpl.
      split; [lia|]. split; [lia|].
      apply page_of_lookup in Hk as (b & Hb & Hk).
      by exists (clock w), (last_file_index w), 5, b, k, e.
  - assert (Hnd : NoDup (map oid (files_unprocessed w))).
    { destruct Hwf as (Ho & _). unfold all_files in Ho. rewrite map_app in Ho.
      by apply NoDup_app in Ho as (_ & _ & ?). }
    destruct (check_pass api w) as [r w'] eqn:Hp. simpl.
    destruct (check_pass_spec _ _ _ Hnd Hp) as (l1 & HF & -> & -> & Hr).
    split; [done|]. split; [done|].
    assert (Hl1 : forall g, g ∈ l1 ->
              exists f, f ∈ files_unprocessed w /\ same_object f g).
    { intros g Hg. destruct (refreshed_elem_of _ _ _ HF Hg) as (f & ? & ? & _).
      by exists f. }
    destruct r as [c|e].
    + destruct Hr as (-> & -> & ->). split; [intros g Hg; apply elem_of_app; by left|].
      split.
      * intros g [Hg _]%elem_of_filter_bool. left. by apply Hl1.
      * intros g [Hg|[Hg _]%elem_of_filter_bool]%elem_of_app; [by left|].
        right. by apply Hl1.
    + destruct Hr as (-> & ->). split; [done|]. split; [|by left].
      intros g Hg. left. by apply Hl1.
  - simpl. repeat split; try done; [|by left].
    intros g Hg. left. exists g. split; [done|apply same_object_refl].
  - destruct (get_file_frame fid w) as (-> & -> & -> & ->).
    repeat split; try done; [|by left].
    intros g Hg. left. exists g. split; [done|apply same_object_refl].
Qed.

Lemma steps_files (w w' : world) :
  rtc step w w' -> wf w -> forall g, g ∈ files w -> g ∈ files w'.
Proof.
  induction 1 as [|w w1 w' Hs _ IH]; [done|]. intros Hwf g Hg.
  apply IH; [by apply (wf_step w)|].
  by apply (step_objects _ _ Hs Hwf).
Qed.

(** An identity and an index that the counters have passed and that no
    object held carries are never carried again. *)
Lemma gone_forever (o i : nat) (w w' : world) :
  rtc step w w' -> wf w ->
  o < next_oid w -> i < last_file_index w ->
  (forall g, g ∈ all_files w -> oid g <> o /\ index g <> i) ->
  forall g, g ∈ all_files w' -> oid g <> o /\ index g <> i.
Proof.
  induction 1 as [|w w1 w' Hs _ IH]; [done|]. intros Hwf Ho Hi Hnone.
  destruct (step_objects _ _ Hs Hwf) as (Hn & Hl & _ & Hu & Hf).
  apply IH; [by apply (wf_step w)|lia|lia|].
  intros g [Hg|Hg]%elem_of_app.
  - destruct (Hf g Hg) as [Hg'|(f & Hfw & Eo & Ei & _)].
    + apply Hnone, elem_of_app. by left.
    + rewrite Eo, Ei. apply Hnone, elem_of_app. by right.
  - destruct (Hu g Hg) as [(f & Hfw & Eo & Ei & _)|(? & ? & _)]; [|lia].
    rewrite Eo, Ei. apply Hnone, elem_of_app. by right.
Qed.

Lemma other_not_kept (f : FileInfoCache) :
  is_other f = true -> is_complete f = false /\ is_processing f = false.
Proof.
  unfold is_other. intros [?%negb_true_iff ?%negb_true_iff]%andb_true_iff. done.
Qed.

(** C5. When the first loop of a pass gets through and leaves an object
    [f] of [files_unprocessed] with a status that is neither "PROCESSING"
    nor "FINISHED", the pass ends, and from then on no object of [files]
    or [files_unprocessed] is [f] or carries its index: [f] has left
    [files_unprocessed], has not entered [files], and never comes back. *)
Theorem other_is_discarded (w w1 : world) (f : FileInfoCache)
    (cf : list FileInfoCache * list FileInfoCache) :
  wf w ->
  check_each api (files_unprocessed w) 0 [] [] w = (Ok cf, w1) ->
  f ∈ files_unprocessed w1 ->
  is_other f = true ->
  exists completed w2,
    check_pass api w = (Ok completed, w2) /\
    forall w3, rtc step w2 w3 ->
      forall g, g ∈ files w3 ++ files_unprocessed w3 ->
        oid g <> oid f /\ index g <> index f.
Proof.
  intros Hwf H1 Hf Hother.
  assert (Hnd : NoDup (map oid (files_unprocessed w))).
  { destruct Hwf as (Ho & _). unfold all_files in Ho. rewrite map_app in Ho.
    by apply NoDup_app in Ho as (_ & _ & ?). }
  destruct (check_pass_sweep _ _ _ Hnd H1) as (HF & _ & Hp).
  eexists _, _. split; [exact Hp|].
  set (l1 := files_unprocessed w1) in *.
  pose proof (wf_pass w Hwf) as Hwf2. rewrite Hp in Hwf2. simpl in Hwf2.
  pose proof (wf_refreshed _ _ Hwf HF) as (Ho & Hi & Hbo & Hbi).
  unfold all_files in Ho, Hi, Hbo, Hbi. simpl in Ho, Hi, Hbo, Hbi.
  apply (check_each_spec _ [] []) in H1
    as (_ & _ & _ & _ & _ & _ & Hfs & Hl & Hn & _); [|by rewrite app_nil_r].
  assert (Hin : f ∈ files w ++ l1) by (apply elem_of_app; by right).
  destruct (other_not_kept _ Hother) as [Hc Hpr].
  intros w3 Hsteps. apply (gone_forever _ _ _ _ Hsteps Hwf2); simpl.
  - rewrite Hn. rewrite Forall_forall in Hbo. by apply Hbo, list_elem_of_fmap_2.
  - rewrite Hl. rewrite Forall_forall in Hbi. by apply Hbi, list_elem_of_fmap_2.
  - unfold all_files. simpl. intros g Hg.
    assert (Hgin : g ∈ files w ++ l1).
    { rewrite <- app_assoc in Hg. apply elem_of_app in Hg as [Hg|Hg];
        apply elem_of_app; [by left|right].
      by apply elem_of_app in Hg as [Hg|Hg]; apply elem_of_filter_bool in Hg as [? _]. }
    assert (Hne : g <> f).
    { intros ->. rewrite <- app_assoc in Hg.
      apply elem_of_app in Hg as [Hg|Hg].
      - rewrite map_app in Ho. apply NoDup_app in Ho as (_ & Hdis & _).
        apply (Hdis (oid f)); by apply list_elem_of_fmap_2.
      - apply elem_of_app in Hg as [Hg|Hg]; apply elem_of_filter_bool in Hg as [_ Hg];
          congruence. }
    split; intros E; apply Hne.
    + by apply (NoDup_map_inj oid (files w ++ l1)).
    + by apply (NoDup_map_inj index (files w ++ l1)).
Qed.

(** The upstream listing gives a file_id at one index only. *)
Definition listing_unique : Prop :=
  forall t1 o1 l1 b1 k1 e1 t2 o2 l2 b2 k2 e2,
    file_all api t1 o1 l1 = Response 200 b1 -> b1 !! k1 = Some e1 ->
    file_all api t2 o2 l2 = Response 200 b2 -> b2 !! k2 = Some e2 ->
    fileId e1 = fileId e2 -> o1 + k1 = o2 + k2.

Lemma delivered_step (w w' : world) :
  step w w' -> wf w ->
  Forall delivered (all_files w) -> Forall delivered (all_files w').
Proof.
  intros Hs Hwf Hd. rewrite Forall_forall in Hd. apply Forall_forall.
  destruct (step_objects _ _ Hs Hwf) as (_ & _ & _ & Hu & Hf).
  assert (Hsame : forall f g, f ∈ all_files w -> same_object f g -> delivered g).
  { intros f g Hfw (_ & Ei & Ef).
    destruct (Hd f Hfw) as (t & o & l & b & k & e & ? & ? & ? & ?).
    exists t, o, l, b, k, e. by rewrite Ei, Ef. }
  intros g [Hg|Hg]%elem_of_app.
  - destruct (Hf g Hg) as [Hg'|(f & Hfw & Hfg)].
    + apply Hd, elem_of_app. by left.
    + apply (Hsame f); [|done]. apply elem_of_app. by right.
  - destruct (Hu g Hg) as [(f & Hfw & Hfg)|(_ & _ & ?)]; [|done].
    apply (Hsame f); [|done]. apply elem_of_app. by right.
Qed.

Lemma delivered_reachable (w : world) :
  reachable w -> wf w /\ Forall delivered (all_files w).
Proof.
  unfold reachable. revert w.
  apply (rtc_ind_r (fun w => wf w /\ Forall delivered (all_files w)) init).
  - split; [apply wf_init|constructor].
  - intros w0 w _ Hs [Hwf Hd].
    split; [by apply (wf_step w0)|by apply (delivered_step w0)].
Qed.

(** C6. With an upstream listing that gives a file_id at one index only:
    at every reachable state no file_id is carried both by an object of
    [files_unprocessed] and by an object of [files]; and a file_id carried
    by an object of [files] is carried by no object of [files_unprocessed]
    at any later state. *)
Theorem pending_completed_disjoint (w : world) :
  listing_unique -> reachable w ->
  (forall f g, f ∈ files_unprocessed w -> g ∈ files w -> file_id f <> file_id g) /\
  (forall w' f g, rtc step w w' ->
     g ∈ files w -> f ∈ files_unprocessed w' -> file_id f <> file_id g).
Proof.
  intros Huniq.
  assert (Hnow : forall w, reachable w ->
            forall f g, f ∈ files_unprocessed w -> g ∈ files w ->
                        file_id f <> file_id g).
  { clear w. intros w [Hwf Hd]%delivered_reachable f g Hf Hg E.
    rewrite Forall_forall in Hd.
    destruct (Hd f) as (t1 & o1 & l1 & b1 & k1 & e1 & H1 & K1 & F1 & I1);
      [apply elem_of_app; by right|].
    destruct (Hd g) as (t2 & o2 & l2 & b2 & k2 & e2 & H2 & K2 & F2 & I2);
      [apply elem_of_app; by left|].
    assert (Ei : index f = index g).
    { rewrite <- I1, <- I2. apply (Huniq _ _ _ _ _ _ _ _ _ _ _ _ H1 K1 H2 K2).
      congruence. }
    destruct Hwf as (_ & Hi & _). unfold all_files in Hi. rewrite map_app in Hi.
    apply NoDup_app in Hi as (_ & Hdis & _).
    apply (Hdis (index g)); [by apply list_elem_of_fmap_2|].
    rewrite <- Ei. by apply list_elem_of_fmap_2. }
  intros Hr. split; [by apply Hnow|].
  intros w' f g Hsteps Hg Hf. apply (Hnow w'); [unfold reachable in *; by transitivity w|done|].
  apply (steps_files w); [done|by apply wf_reachable|done].
Qed.

(** The requests of a pass, ended or aborted, are status fetches for
    objects that were in progress when it began. *)
Lemma check_pass_trace (w w' : world) (r : result (list FileInfoCache)) :
  check_pass api w = (r, w') ->
  exists evs,
    trace w' = trace w ++ evs /\
    Forall (fun e => is_warning e \/
              exists g, g ∈ files_unprocessed w /\ is_processing g = true /\
                        e = fetch_event g) evs.
Proof.
  rewrite check_pass_unfold.
  assert (Hev : forall l, (forall g, g ∈ l -> g ∈ files_unprocessed w) ->
    Forall (fun e => is_warning e \/
              exists g, g ∈ files_unprocessed w /\ is_processing g = true /\
                        e = fetch_event g)
      (map fetch_event (List.filter is_processing l))).
  { intros l Hl. apply Forall_forall. intros e (g & -> & Hg)%list_elem_of_fmap.
    apply elem_of_filter_bool in Hg as [Hg Hp]. right. exists g. auto. }
  destruct (check_each api (files_unprocessed w) 0 [] [] w) as [[[c fl]|e] w1] eqn:H1.
  - apply (check_each_spec _ [] []) in H1
      as (v & v' & u & Hv & _ & _ & _ & _ & _ & -> & _ & Htr & _);
      [|by rewrite app_nil_r].
    rewrite !app_nil_r in Hv. subst v.
    destruct (remove_each (c ++ fl) w1) as [[[]|e] w2] eqn:H2;
      apply remove_each_frame in H2 as (_ & _ & _ & _ & Htr2 & _);
      intros [= <- <-]; simpl; rewrite Htr2, Htr; eexists; (split; [done|]);
      by apply Hev.
  - intros [= <- <-].
    apply (check_each_spec _ [] []) in H1
      as (v & v' & u & Hv & _ & _ & _ & _ & _ & f & unv & warn & -> & Hp & _ & Htr & Hw);
      [|by rewrite app_nil_r].
    eexists. split; [exact Htr|].
    apply Forall_app. split.
    + apply Hev. intros g Hg. rewrite Hv. apply elem_of_app. by left.
    + constructor.
      * right. exists f. split; [|done]. rewrite Hv. apply elem_of_app. right. left.
      * eapply Forall_impl; [exact Hw|]. by left.
Qed.

(** C9 (as the code has it). The poller gives every new object the
    status of its listing entry, whatever it is.  The requests of a pass
    are for objects that were in progress when it began.  A pass that ends
    leaves no object that was not in progress in [files_unprocessed]: one
    that was "FINISHED" is then in [files], any other is in neither list,
    and no request of the pass was at its index. *)
Theorem initial_status_resolved :
  (forall w,
     let page := page_of (file_all api (clock w) (last_file_index w) 5) in
     exists new,
       files_unprocessed (poll_event_loop_body api w).2 = files_unprocessed w ++ new /\
       map file_id new = map fileId page /\
       map status new = map processingStatus page) /\
  (forall w r w',
     check_pass api w = (r, w') ->
     exists evs,
       trace w' = trace w ++ evs /\
       forall o l, EvGetAll o l ∈ evs ->
         exists g, g ∈ files_unprocessed w /\ is_processing g = true /\ index g = o) /\
  (forall w completed w' f,
     wf w ->
     check_pass api w = (Ok completed, w') ->
     f ∈ files_unprocessed w ->
     is_processing f = false ->
     (oid f ∉ map oid (files_unprocessed w')) /\
     (is_complete f = true -> f ∈ files w') /\
     (is_complete f = false -> oid f ∉ map oid (files w')) /\
     exists evs, trace w' = trace w ++ evs /\ forall l, EvGetAll (index f) l ∉ evs).
Proof.
  split; [|split].
  - intros w. cbv zeta.
    destruct (poll_event_loop_body_spec w) as (w' & evs & -> & _ & Hu & _).
    eexists. split; [exact Hu|].
    by destruct (created_maps (next_oid w) (last_file_index w)
                   (page_of (file_all api (clock w) (last_file_index w) 5)))
      as (_ & _ & -> & ->).
  - intros w r w' Hp. destruct (check_pass_trace _ _ _ Hp) as (evs & Htr & Hev).
    exists evs. split; [done|]. intros o l Hin. rewrite Forall_forall in Hev.
    destruct (Hev _ Hin) as [[]|(g & Hg & Hpr & [= -> _])]. by exists g.
  - intros w completed w' f Hwf Hp Hf Hnp.
    assert (Hnd : NoDup (map oid (files_unprocessed w))).
    { destruct Hwf as (Ho & _). unfold all_files in Ho. rewrite map_app in Ho.
      by apply NoDup_app in Ho as (_ & _ & ?). }
    destruct (check_pass_spec _ _ _ Hnd Hp) as (l1 & HF & _ & _ & -> & Hfs & Hfu).
    pose proof (wf_refreshed _ _ Hwf HF) as (Ho & Hi & _).
    unfold all_files in Ho, Hi. simpl in Ho, Hi.
    assert (Hf1 : f ∈ l1).
    { apply list_elem_of_lookup in Hf as [i Hi'].
      destruct (Forall2_lookup_l _ _ _ _ _ HF Hi') as (g & Hg & _ & Hsame).
      rewrite <- (Hsame Hnp). by apply list_elem_of_lookup_2 in Hg. }
    assert (Hin : f ∈ files w ++ l1) by (apply elem_of_app; by right).
    rewrite Hfs, Hfu. split; [|split; [|split]].
    + intros (g & E & [Hg Hgp]%elem_of_filter_bool)%list_elem_of_fmap.
      assert (f = g) as <-; [|congruence].
      apply (NoDup_map_inj oid (files w ++ l1)); [done|done| |done].
      apply elem_of_app. by right.
    + intros Hc. apply elem_of_app. right. by apply elem_of_filter_bool.
    + intros Hc (g & E & Hg)%list_elem_of_fmap.
      assert (Hgin : g ∈ files w ++ l1).
      { apply elem_of_app in Hg as [Hg|[Hg _]%elem_of_filter_bool];
          apply elem_of_app; [by left|by right]. }
      assert (f = g) as <- by by apply (NoDup_map_inj oid (files w ++ l1)).
      apply elem_of_app in Hg as [Hg|[_ Hg]%elem_of_filter_bool]; [|congruence].
      rewrite map_app in Ho. apply NoDup_app in Ho as (_ & Hdis & _).
      apply (Hdis (oid f)); by apply list_elem_of_fmap_2.
    + destruct (check_pass_ok_frame _ _ _ Hp) as (_ & _ & _ & Htr).
      eexists. split; [exact Htr|].
      intros l (g & [= Ei _] & [Hg Hgp]%elem_of_filter_bool)%list_elem_of_fmap.
      destruct Hwf as (_ & Hiw & _). unfold all_files in Hiw.
      assert (f = g) as <-; [|congruence].
      apply (NoDup_map_inj index (files w ++ files_unprocessed w));
        [done| | |done]; apply elem_of_app; by right.
Qed.

(** ** The listing poller *)

(** C8 (as the code has it). An answer to the listing request with a
    status other than 200 is an empty page for [fetch_files_info].  A turn
    of the poller's loop on an answered request appends one object for
    each entry of the page, moves the cursor by the page's length, and
    ends with the sleep of 5 when the page is empty and without any sleep
    when it is not.  A request that fails in transport raises out of
    [fetch_files_info]; the turn of the loop then leaves the cursor and
    [files_unprocessed] as they were, logs the error and comes back. *)
Theorem listing_failure_handling (w : world) :
  (forall o l c b,
     file_all api (clock w) o l = Response c b -> c <> 200 ->
     (fetch_files_info api o l w).1 = Ok []) /\
  (forall c b,
     file_all api (clock w) (last_file_index w) 5 = Response c b ->
     let page := if bool_decide (c = 200) then b else [] in
     exists w' evs,
       poll_event_loop_body api w = (Ok tt, w') /\
       last_file_index w' = last_file_index w + length page /\
       files_unprocessed w' =
         files_unprocessed w ++ created (next_oid w) (last_file_index w) page /\
       Forall (fun e => ~ is_sleep e) evs /\
       trace w' = trace w ++ evs ++
                  match page with [] => [EvSleep 5] | _ :: _ => [] end) /\
  (file_all api (clock w) (last_file_index w) 5 = TransportFailure ->
   (fetch_files_info api (last_file_index w) 5 w).1 = Raise TransportError /\
   exists w',
     poll_event_loop_body api w = (Ok tt, w') /\
     last_file_index w' = last_file_index w /\
     files_unprocessed w' = files_unprocessed w /\
     last (trace w') = Some (EvLog ERROR "File listing failed")).
Proof.
  split; [|split].
  - intros o l c b Hr Hc. rewrite fetch_files_info_eq, Hr. simpl.
    by rewrite bool_decide_false.
  - intros c b Hr page.
    unfold poll_event_loop_body. monad_unfold. rewrite poll_for_new_files_eq, Hr.
    fold page. cbv zeta.
    destruct (after_fetch_frame (last_file_index w) 5
                (emit (EvLog INFO "fetch files from index: %s") w))
      as (_ & _ & _ & _ & _ & warn & Htr & Hw).
    simpl in Htr. rewrite <- app_assoc in Htr.
    assert (Hns : Forall (fun e => ~ is_sleep e)
              ([EvLog INFO "fetch files from index: %s"]
                 ++ EvGetAll (last_file_index w) 5 :: warn)).
    { repeat constructor; try by intros [].
      eapply Forall_impl; [exact Hw|]. intros [] Hx Hs; simpl in *; done. }
    destruct page as [|e page'] eqn:Hpage; simpl.
    + eexists _, ([EvLog INFO "fetch files from index: %s"]
                    ++ EvGetAll (last_file_index w) 5 :: warn).
      split; [done|]. simpl. rewrite Htr. by rewrite <- !app_assoc.
    + eexists _, ([EvLog INFO "fetch files from index: %s"]
                    ++ EvGetAll (last_file_index w) 5 :: warn).
      split; [done|]. simpl. rewrite Htr. by rewrite app_nil_r.
  - intros Hr. split; [by rewrite fetch_files_info_eq, Hr|].
    unfold poll_event_loop_body. monad_unfold. rewrite poll_for_new_files_eq, Hr.
    cbv zeta.
    destruct (after_fetch_frame (last_file_index w) 5
                (emit (EvLog INFO "fetch files from index: %s") w))
      as (_ & Hu & Hl & _).
    eexists. split; [done|]. simpl. rewrite Hu, Hl. repeat split.
    by rewrite last_snoc.
Qed.

End Properties.

(** ** Runs of the poller *)

(** An upstream that answers the n-th listing request with the n-th
    element of [answers], whatever the offset, and with an empty page
    after the last. *)
Definition scripted (answers : list (http_result (list entry)))
    (details : http_result (gmap string json))
    (segments : http_result (list json)) : upstream :=
  {| file_all := fun t _ _ => default (Response 200 []) (answers !! t);
     file_details := fun _ _ => details;
     file_segments := fun _ _ => segments |}.

Definition serving (pages : list (list entry)) : upstream :=
  scripted (map (Response 200) pages) TransportFailure TransportFailure.

(** [n] turns of [poll_event_loop]. *)
Definition poll_turns (api : upstream) (n : nat) (w : world) : world :=
  Nat.iter n (fun w => (poll_event_loop_body api w).2) w.

Lemma created_app (p q : list entry) :
  forall o i,
  created o i (p ++ q) = created o i p ++ created (o + length p) (i + length p) q.
Proof.
  induction p as [|e p IH]; intros o i; simpl.
  - by rewrite !Nat.add_0_r.
  - by rewrite IH, !Nat.add_succ_r.
Qed.

Lemma poll_event_loop_body_clock (api : upstream) (w : world) :
  clock (poll_event_loop_body api w).2 = S (clock w).
Proof.
  unfold poll_event_loop_body. monad_unfold. rewrite poll_for_new_files_eq.
  destruct (after_fetch_frame api (last_file_index w) 5
              (emit (EvLog INFO "fetch files from index: %s") w))
    as (_ & _ & _ & _ & Hc & _).
  destruct (file_all api (clock w) (last_file_index w) 5) as [c b|]; simpl; [|done].
  by destruct (bool_decide (length (if bool_decide (c = 200) then b else []) = 0)).
Qed.

Lemma poll_turns_S (api : upstream) (n : nat) (w : world) :
  poll_turns api (S n) w = (poll_event_loop_body api (poll_turns api n w)).2.
Proof. done. Qed.

Lemma poll_turns_serving (pages : list (list entry)) (n : nat) :
  clock (poll_turns (serving pages) n init) = n /\
  files_unprocessed (poll_turns (serving pages) n init)
    = created 0 0 (concat (take n pages)) /\
  last_file_index (poll_turns (serving pages) n init)
    = length (concat (take n pages)) /\
  next_oid (poll_turns (serving pages) n init) = length (concat (take n pages)).
Proof.
  induction n as [|n (Hc & Hu & Hl & Hn)]; [done|].
  rewrite poll_turns_S. set (w := poll_turns (serving pages) n init) in *.
  rewrite poll_event_loop_body_clock.
  destruct (poll_event_loop_body_spec (serving pages) w)
    as (w' & evs & -> & _ & Hu' & Hl' & Hn' & _).
  cbn [snd]. rewrite Hu', Hl', Hn', Hu, Hl, Hn, Hc.
  assert (Hpage : concat (take (S n) pages)
            = concat (take n pages)
              ++ page_of (file_all (serving pages) n (length (concat (take n pages))) 5)).
  { simpl. rewrite list_lookup_fmap.
    destruct (pages !! n) as [p|] eqn:Hp; simpl.
    - rewrite (take_S_r _ _ _ Hp), concat_app. simpl. by rewrite app_nil_r.
    - apply lookup_ge_None in Hp. rewrite !take_ge by lia. by rewrite app_nil_r. }
  rewrite Hpage, created_app, length_app. by repeat split.
Qed.

(** C2. A turn of the poller's loop appends to [files_unprocessed] one
    object for each entry of the page it was given, in the page's order,
    with indices that go up by one from the cursor, and moves the cursor by
    the length of the page.  Started on the empty cache and given any
    sequence of pages, of any lengths, it leaves objects whose indices are
    0, 1, ..., total - 1 in this order, total being the number of entries
    given, and the cursor at total. *)
Theorem poll_indices_contiguous :
  (forall (api : upstream) (w : world),
     let page := page_of (file_all api (clock w) (last_file_index w) 5) in
     let w' := (poll_event_loop_body api w).2 in
     exists new,
       files_unprocessed w' = files_unprocessed w ++ new /\
       map index new = seq (last_file_index w) (length page) /\
       map file_id new = map fileId page /\
       last_file_index w' = last_file_index w + length page) /\
  (forall pages : list (list entry),
     let w := poll_turns (serving pages) (length pages) init in
     map index (files_unprocessed w) = seq 0 (length (concat pages)) /\
     map file_id (files_unprocessed w) = map fileId (concat pages) /\
     last_file_index w = length (concat pages)).
Proof.
  split.
  - intros api w. cbv zeta.
    destruct (poll_event_loop_body_spec api w) as (w' & evs & -> & _ & Hu & Hl & _).
    eexists. split; [exact Hu|].
    destruct (created_maps (next_oid w) (last_file_index w)
                (page_of (file_all api (clock w) (last_file_index w) 5)))
      as (_ & -> & -> & _).
    by repeat split.
  - intros pages. cbv zeta.
    destruct (poll_turns_serving pages (length pages)) as (_ & -> & -> & _).
    rewrite firstn_all.
    by destruct (created_maps 0 0 (concat pages)) as (_ & -> & -> & _).
Qed.

(** * The theorems at work on small upstreams *)

Definition PROCESSING : option string := Some "PROCESSING".
Definition FINISHED : option string := Some "FINISHED".

(** Three files in progress; then the status of the first is read as
    finished, and the request for the second is answered by [second]. *)
Definition three_in_progress (second : http_result (list entry)) : upstream :=
  scripted
    [Response 200 [Entry (Some "a") PROCESSING; Entry (Some "b") PROCESSING;
                   Entry (Some "c") PROCESSING];
     Response 200 [Entry (Some "a") FINISHED];
     second]
    (Response 200 {[ "name" := JStr "a.wav" ]})
    (Response 200 [JStr "hello"]).

Definition rec_a : FileInfoCache := mkFileInfoCache 0 0 (Some "a") PROCESSING.
Definition rec_b : FileInfoCache := mkFileInfoCache 1 1 (Some "b") PROCESSING.
Definition rec_c : FileInfoCache := mkFileInfoCache 2 2 (Some "c") PROCESSING.

Definition wrong_id : http_result (list entry) :=
  Response 200 [Entry (Some "x") PROCESSING].

Definition unavailable : http_result (list entry) := Response 503 [].

Lemma mismatch_aborts_pass_witness :
  exists w2 pre',
    check_pass (three_in_progress wrong_id)
        (poll_event_loop_body (three_in_progress wrong_id) init).2
      = (Raise (ValueError "Server returned invalid fileId at position: %s"), w2) /\
    files w2 = [] /\
    files_unprocessed w2 = pre' ++ rec_b :: [rec_c] /\
    Forall2 refreshed [rec_a] pre' /\
    last_file_index w2 = 3 /\
    check_event_loop_body (three_in_progress wrong_id)
        (poll_event_loop_body (three_in_progress wrong_id) init).2
      = (Ok tt, emit (EvSleep 5) (emit (EvLog ERROR "File checking failed") w2)).
Proof.
  eapply (mismatch_aborts_pass (three_in_progress wrong_id)
            (poll_event_loop_body (three_in_progress wrong_id) init).2
            _ [rec_a] [rec_c] rec_b).
  - vm_compute. reflexivity.
  - vm_compute. reflexivity.
  - reflexivity.
  - vm_compute. reflexivity.
  - vm_compute. discriminate.
Defined.

Lemma failed_status_fetch_aborts_pass_witness :
  (exists w2 pre',
     check_pass (three_in_progress unavailable)
         (poll_event_loop_body (three_in_progress unavailable) init).2
       = (Raise IndexError, w2) /\
     files w2 = [] /\
     files_unprocessed w2 = pre' ++ rec_b :: [rec_c] /\
     Forall2 refreshed [rec_a] pre' /\
     check_event_loop_body (three_in_progress unavailable)
         (poll_event_loop_body (three_in_progress unavailable) init).2
       = (Ok tt, emit (EvSleep 5) (emit (EvLog ERROR "File checking failed") w2))) /\
  (exists w2 pre',
     check_pass (three_in_progress TransportFailure)
         (poll_event_loop_body (three_in_progress TransportFailure) init).2
       = (Raise TransportError, w2) /\
     files w2 = [] /\
     files_unprocessed w2 = pre' ++ rec_b :: [rec_c] /\
     Forall2 refreshed [rec_a] pre' /\
     check_event_loop_body (three_in_progress TransportFailure)
         (poll_event_loop_body (three_in_progress TransportFailure) init).2
       = (Ok tt, emit (EvSleep 5) (emit (EvLog ERROR "File checking failed") w2))).
Proof.
  split.
  - destruct (failed_status_fetch_aborts_pass (three_in_progress unavailable)
                (poll_event_loop_body (three_in_progress unavailable) init).2
                (check_each (three_in_progress unavailable) [rec_a] 0 [] []
                   (poll_event_loop_body (three_in_progress unavailable) init).2).2
                [rec_a] [rec_c] rec_b ([with_status FINISHED rec_a], []))
      as (Hmap & Hempty & _).
    + vm_compute. reflexivity.
    + vm_compute. reflexivity.
    + reflexivity.
    + apply Hempty, (Hmap 503 []); [vm_compute; reflexivity|lia].
  - destruct (failed_status_fetch_aborts_pass (three_in_progress TransportFailure)
                (poll_event_loop_body (three_in_progress TransportFailure) init).2
                (check_each (three_in_progress TransportFailure) [rec_a] 0 [] []
                   (poll_event_loop_body (three_in_progress TransportFailure) init).2).2
                [rec_a] [rec_c] rec_b ([with_status FINISHED rec_a], []))
      as (_ & _ & Htransport).
    + vm_compute. reflexivity.
    + vm_compute. reflexivity.
    + reflexivity.
    + apply Htransport. vm_compute. reflexivity.
Defined.

(** C10, as stated, fails: a transport failure of a status fetch is not
    turned into an empty list; it raises out of [fetch_files_info], and the
    pass ends with that error instead of the IndexError. *)
Lemma transport_failure_of_status_fetch_is_no_empty_list :
  (fetch_files_info (three_in_progress TransportFailure) (index rec_b) 1
     (check_each (three_in_progress TransportFailure) [rec_a] 0 [] []
        (poll_event_loop_body (three_in_progress TransportFailure) init).2).2).1
    = Raise TransportError /\
  (fetch_files_info (three_in_progress TransportFailure) (index rec_b) 1
     (check_each (three_in_progress TransportFailure) [rec_a] 0 [] []
        (poll_event_loop_body (three_in_progress TransportFailure) init).2).2).1
    <> Ok [] /\
  (check_pass (three_in_progress TransportFailure)
     (poll_event_loop_body (three_in_progress TransportFailure) init).2).1
    = Raise TransportError /\
  (check_pass (three_in_progress TransportFailure)
     (poll_event_loop_body (three_in_progress TransportFailure) init).2).1
    <> Raise IndexError.
Proof. repeat split; vm_compute; (reflexivity || discriminate). Qed.

(** Two files in progress; the first is then read with a status that is
    neither sentinel, the second as still in progress. *)
Definition first_fails : upstream :=
  scripted
    [Response 200 [Entry (Some "a") PROCESSING; Entry (Some "b") PROCESSING];
     Response 200 [Entry (Some "a") (Some "ERROR")];
     Response 200 [Entry (Some "b") PROCESSING]]
    TransportFailure TransportFailure.

Lemma other_is_discarded_witness :
  exists completed w2,
    check_pass first_fails (poll_event_loop_body first_fails init).2
      = (Ok completed, w2) /\
    forall w3, rtc (step first_fails) w2 w3 ->
      forall g, g ∈ files w3 ++ files_unprocessed w3 -> oid g <> 0 /\ index g <> 0.
Proof.
  eapply (other_is_discarded first_fails
            (poll_event_loop_body first_fails init).2 _
            (mkFileInfoCache 0 0 (Some "a") (Some "ERROR"))).
  - apply wf_poll, wf_init.
  - vm_compute. reflexivity.
  - vm_compute. left.
  - reflexivity.
Defined.

(** An upstream with a fixed listing, paged by offset and limit. *)
Definition listing_of (L : list entry) : upstream :=
  {| file_all := fun _ o l => Response 200 (take l (drop o L));
     file_details := fun _ _ => TransportFailure;
     file_segments := fun _ _ => TransportFailure |}.

Lemma listing_of_unique (L : list entry) :
  NoDup (map fileId L) -> listing_unique (listing_of L).
Proof.
  intros Hnd t1 o1 l1 b1 k1 e1 t2 o2 l2 b2 k2 e2 [= <-] K1 [= <-] K2 E.
  apply lookup_take_Some in K1 as [K1 _], K2 as [K2 _].
  rewrite lookup_drop in K1, K2.
  apply (NoDup_lookup (map fileId L) _ _ (fileId e1)); [done| |].
  - by rewrite list_lookup_fmap, K1.
  - by rewrite list_lookup_fmap, K2, E.
Qed.

Definition two_files : upstream :=
  listing_of [Entry (Some "a") FINISHED; Entry (Some "b") PROCESSING].

Definition two_files_checked : world :=
  (check_event_loop_body two_files (poll_event_loop_body two_files init).2).2.

Lemma pending_completed_disjoint_witness :
  files two_files_checked = [mkFileInfoCache 0 0 (Some "a") FINISHED] /\
  files_unprocessed two_files_checked = [rec_b] /\
  (forall f g,
     f ∈ files_unprocessed two_files_checked -> g ∈ files two_files_checked ->
     file_id f <> file_id g) /\
  (forall w' f g,
     rtc (step two_files) two_files_checked w' ->
     g ∈ files two_files_checked -> f ∈ files_unprocessed w' ->
     file_id f <> file_id g).
Proof.
  split; [vm_compute; reflexivity|]. split; [vm_compute; reflexivity|].
  apply (pending_completed_disjoint two_files two_files_checked).
  - apply listing_of_unique. simpl.
    apply NoDup_cons. split; [|apply NoDup_singleton].
    by intros [=]%list_elem_of_singleton.
  - unfold reachable, two_files_checked.
    eapply rtc_l; [apply step_poll|]. apply check_event_loop_body_steps.
Defined.

(** One file in progress and one already finished; the status request for
    the first is answered with a 503. *)
Definition finished_behind_unavailable : upstream :=
  scripted
    [Response 200 [Entry (Some "a") PROCESSING; Entry (Some "b") FINISHED];
     unavailable]
    TransportFailure TransportFailure.

Definition rec_b_finished : FileInfoCache := mkFileInfoCache 1 1 (Some "b") FINISHED.

(** C9, as stated, fails: a record listed as finished is not resolved by
    the next pass when that pass aborts on another record. *)
Lemma finished_record_waits_behind_failed_fetch :
  files_unprocessed (poll_event_loop_body finished_behind_unavailable init).2
    = [rec_a; rec_b_finished] /\
  is_complete rec_b_finished = true /\
  check_pass finished_behind_unavailable
      (poll_event_loop_body finished_behind_unavailable init).2
    = (Raise IndexError,
       (check_pass finished_behind_unavailable
          (poll_event_loop_body finished_behind_unavailable init).2).2) /\
  files (check_event_loop_body finished_behind_unavailable
           (poll_event_loop_body finished_behind_unavailable init).2).2 = [] /\
  files_unprocessed
    (check_event_loop_body finished_behind_unavailable
       (poll_event_loop_body finished_behind_unavailable init).2).2
    = [rec_a; rec_b_finished].
Proof. repeat split; vm_compute; reflexivity. Qed.

(** An upstream that cannot be reached. *)
Definition down : upstream :=
  scripted [TransportFailure] TransportFailure TransportFailure.

(** C8, as stated, fails: on a transport error [fetch_files_info] gives no
    list, and the turn of the poller's loop does not sleep. *)
Lemma transport_error_is_no_empty_page :
  (fetch_files_info down 0 5 init).1 = Raise TransportError /\
  (fetch_files_info down 0 5 init).1 <> Ok [] /\
  trace (poll_event_loop_body down init).2
    = [EvLog INFO "fetch files from index: %s"; EvGetAll 0 5;
       EvLog ERROR "File listing failed"].
Proof. repeat split; vm_compute; (reflexivity || discriminate). Qed.

(** One file, read as finished by the first status fetch; its details
    are answered by [details]. *)
Definition one_file (details : http_result (gmap string json)) : upstream :=
  scripted
    [Response 200 [Entry (Some "a") PROCESSING; Entry (Some "b") (Some "ERROR")];
     Response 200 [Entry (Some "a") FINISHED]]
    details
    (Response 200 [JStr "hello"]).

Definition a_wav : http_result (gmap string json) :=
  Response 200 {[ "name" := JStr "a.wav" ]}.

Definition one_file_listed (details : http_result (gmap string json)) : world :=
  (poll_event_loop_body (one_file details) init).2.

Definition one_file_checked (details : http_result (gmap string json)) : world :=
  (check_event_loop_body (one_file details) (one_file_listed details)).2.

Lemma aggregator_merge_witness :
  (exists w',
     fetch_and_combine_file_info (one_file a_wav) "a" (one_file_checked a_wav)
       = (Ok (<["segments" := JList [JStr "hello"]]> {[ "name" := JStr "a.wav" ]}), w') /\
     trace w' = trace (one_file_checked a_wav) ++ [EvGetDetails "a"; EvGetSegments "a"]) /\
  (exists w',
     fetch_and_combine_file_info (one_file (Response 500 ∅)) "a"
         (one_file_checked (Response 500 ∅))
       = (Raise AssertionError, w') /\
     trace w' = trace (one_file_checked (Response 500 ∅)) ++ [EvGetDetails "a"]).
Proof.
  split.
  - apply (aggregator_merge (one_file a_wav) "a" (one_file_checked a_wav));
      vm_compute; reflexivity.
  - apply (aggregator_merge (one_file (Response 500 ∅)) "a"
             (one_file_checked (Response 500 ∅))) with (c := 500) (d := ∅).
    + vm_compute. reflexivity.
    + discriminate.
Defined.

Lemma get_file_lookup_witness :
  get_file (one_file a_wav) "b" (one_file_checked a_wav)
    = (Ok (mkJSONResponse not_found 404), one_file_checked a_wav) /\
  (exists w',
     get_file (one_file a_wav) "a" (one_file_checked a_wav)
       = (Ok (mkJSONResponse
                (<["segments" := JList [JStr "hello"]]> {[ "name" := JStr "a.wav" ]})
                200), w') /\
     trace w' = trace (one_file_checked a_wav) ++ [EvGetDetails "a"; EvGetSegments "a"]) /\
  (exists w',
     get_file (one_file (Response 500 ∅)) "a" (one_file_checked (Response 500 ∅))
       = (Raise AssertionError, w')) /\
  served_status
    (get_file (one_file (Response 500 ∅)) "a" (one_file_checked (Response 500 ∅))).1
    <> 404.
Proof.
  assert (Hin : forall details,
            exists x, x ∈ files (one_file_checked details) /\ file_id x = Some "a").
  { intros details. eexists. split; [vm_compute; left|reflexivity]. }
  split; [|split; [|split]].
  - apply (get_file_lookup (one_file a_wav) "b" (one_file_checked a_wav)).
    vm_compute. repeat constructor. discriminate.
  - destruct (get_file_lookup (one_file a_wav) "a" (one_file_checked a_wav))
      as (_ & Hpresent & _).
    destruct (Hpresent (Hin a_wav)) as (Hok & _).
    apply Hok; vm_compute; reflexivity.
  - destruct (get_file_lookup (one_file (Response 500 ∅)) "a"
                (one_file_checked (Response 500 ∅))) as (_ & Hpresent & _).
    destruct (Hpresent (Hin (Response 500 ∅))) as (_ & Hbad & _).
    apply (Hbad 500 ∅); [vm_compute; reflexivity|lia].
  - destruct (get_file_lookup (one_file (Response 500 ∅)) "a"
                (one_file_checked (Response 500 ∅))) as (_ & Hpresent & _).
    by destruct (Hpresent (Hin (Response 500 ∅))) as (_ & _ & _ & _ & _ & ?).
Defined.

Lemma check_rerun_or_wait_witness :
  check_event_loop_body (one_file a_wav) (one_file_listed a_wav)
    = check_event_loop_body (one_file a_wav)
        (check_pass (one_file a_wav) (one_file_listed a_wav)).2 /\
  check_event_loop_body (one_file a_wav)
      (check_pass (one_file a_wav) (one_file_listed a_wav)).2
    = (Ok tt,
       emit (EvSleep 5)
         (check_pass (one_file a_wav)
            (check_pass (one_file a_wav) (one_file_listed a_wav)).2).2).
Proof.
  split.
  - eapply (proj1 (check_rerun_or_wait (one_file a_wav) (one_file_listed a_wav))).
    vm_compute. reflexivity.
  - eapply (proj2 (check_rerun_or_wait (one_file a_wav)
                     (check_pass (one_file a_wav) (one_file_listed a_wav)).2)).
    vm_compute. reflexivity.
Defined.

(** * Further properties of the code *)

Section MoreProperties.

Variable api : upstream.

Definition is_request (e : event) : Prop :=
  match e with
  | EvGetAll _ _ | EvGetDetails _ | EvGetSegments _ => True
  | _ => False
  end.

(** Whatever a pass does, it leaves the cursor and the allocator alone and
    only adds to the end of [files]. *)
Lemma check_pass_frame (w w' : world) (r : result (list FileInfoCache)) :
  check_pass api w = (r, w') ->
  last_file_index w' = last_file_index w /\
  next_oid w' = next_oid w /\
  files w `prefix_of` files w'.
Proof.
  rewrite check_pass_unfold.
  destruct (check_each api (files_unprocessed w) 0 [] [] w) as [[[c fl]|e] w1] eqn:H1.
  - apply (check_each_spec _ _ [] []) in H1
      as (_ & _ & _ & _ & _ & _ & Hf & Hl & Hn & _); [|by rewrite app_nil_r].
    destruct (remove_each (c ++ fl) w1) as [[[]|e] w2] eqn:H2;
      apply remove_each_frame in H2 as (Hf2 & Hl2 & Hn2 & _);
      intros [= <- <-]; simpl; rewrite ?Hf2, Hl2, Hn2, Hl, Hn, ?Hf;
      repeat split; try done; by apply prefix_app_r.
  - intros [= <- <-].
    apply (check_each_spec _ _ [] []) in H1
      as (_ & _ & _ & _ & _ & _ & Hf & Hl & Hn & _); [|by rewrite app_nil_r].
    by rewrite Hf, Hl, Hn.
Qed.

Lemma check_file_status_frame (w : world) :
  last_file_index (check_file_status api w).2 = last_file_index w /\
  next_oid (check_file_status api w).2 = next_oid w /\
  files w `prefix_of` files (check_file_status api w).2.
Proof.
  funelim (check_file_status api w);
    match goal with E : check_pass api _ = _ |- _ =>
      destruct (check_pass_frame _ _ _ E) as (Hl & Hn & Hf) end; simpl.
  - done.
  - match goal with IH : _ /\ _ /\ _ |- _ => destruct IH as (-> & -> & Hf') end.
    rewrite Hl, Hn. repeat split. by transitivity (files w').
  - done.
Qed.

(** X1. A turn of the checker's loop comes back normally whatever
    [check_file_status] did, and the last thing it does is sleep 5. *)
Theorem check_turn_returns_and_sleeps (w : world) :
  exists w',
    check_event_loop_body api w = (Ok tt, w') /\
    last (trace w') = Some (EvSleep 5).
Proof.
  rewrite check_event_loop_body_eq.
  destruct (check_file_status api w) as [[[]|e] w']; eexists; (split; [done|]);
    simpl; by rewrite last_snoc.
Qed.

(** X2. Who writes what: a turn of the poller leaves [files] as it is and
    only appends to [files_unprocessed]; a turn of the checker leaves the
    cursor as it is and only appends to [files]; a lookup changes none of
    the three. *)
Theorem who_writes_what (w : world) :
  (files (poll_event_loop_body api w).2 = files w /\
   files_unprocessed w `prefix_of` files_unprocessed (poll_event_loop_body api w).2) /\
  (last_file_index (check_event_loop_body api w).2 = last_file_index w /\
   files w `prefix_of` files (check_event_loop_body api w).2) /\
  (forall fid,
     files (get_file api fid w).2 = files w /\
     files_unprocessed (get_file api fid w).2 = files_unprocessed w /\
     last_file_index (get_file api fid w).2 = last_file_index w).
Proof.
  split; [|split].
  - destruct (poll_event_loop_body_spec api w) as (w' & evs & -> & Hf & Hu & _).
    simpl. rewrite Hf, Hu. split; [done|]. by apply prefix_app_r.
  - rewrite check_event_loop_body_eq.
    destruct (check_file_status_frame w) as (Hl & _ & Hf).
    by destruct (check_file_status api w) as [[[]|e] w'].
  - intros fid. by destruct (get_file_frame api fid w) as (? & ? & ? & _).
Qed.

(** X12. A turn of the poller's loop comes back normally and makes
    exactly one request: the listing, at the cursor, with limit 5. *)
Theorem poll_one_request_per_turn (w : world) :
  exists evs,
    (poll_event_loop_body api w).1 = Ok tt /\
    trace (poll_event_loop_body api w).2
      = trace w ++ EvLog INFO "fetch files from index: %s"
                :: EvGetAll (last_file_index w) 5 :: evs /\
    Forall (fun e => ~ is_request e) evs /\
    clock (poll_event_loop_body api w).2 = S (clock w).
Proof.
  rewrite poll_event_loop_body_clock.
  unfold poll_event_loop_body. monad_unfold. rewrite poll_for_new_files_eq.
  destruct (after_fetch_frame api (last_file_index w) 5
              (emit (EvLog INFO "fetch files from index: %s") w))
    as (_ & _ & _ & _ & _ & warn & Htr & Hw).
  simpl in Htr. rewrite <- app_assoc in Htr. simpl in Htr.
  assert (Hwarn : Forall (fun e => ~ is_request e) warn).
  { eapply Forall_impl; [exact Hw|]. intros [] Hx Hs; simpl in *; done. }
  destruct (file_all api (clock w) (last_file_index w) 5) as [c b|]; simpl.
  - destruct (bool_decide (length (if bool_decide (c = 200) then b else []) = 0)); simpl.
    + exists (warn ++ [EvSleep 5]). rewrite Htr, <- app_assoc.
      split; [done|]. split; [done|].
      split; [|done]. apply Forall_app. split; [done|]. repeat constructor. by intros [].
    + exists warn. by rewrite Htr.
  - exists (warn ++ [EvLog ERROR "File listing failed"]).
    rewrite Htr, <- app_assoc. split; [done|]. split; [done|]. split; [|done].
    apply Forall_app. split; [done|]. repeat constructor. by intros [].
Qed.

(** X10. When [fetch_and_combine_file_info] returns, both reads were
    answered with 200; its value has the segment list under "segments",
    whatever the details had there, and every other key as the details
    had it. *)
Theorem merged_payload_lookup (fid : string) (w w' : world) (r : gmap string json) :
  fetch_and_combine_file_info api fid w = (Ok r, w') ->
  exists d s,
    file_details api (clock w) fid = Response 200 d /\
    file_segments api (S (clock w)) fid = Response 200 s /\
    r !! "segments" = Some (JList s) /\
    forall k, k <> "segments" -> r !! k = d !! k.
Proof.
  rewrite fetch_and_combine_file_info_eq. cbv zeta.
  destruct (file_details api (clock w) fid) as [c d|]; [|done].
  case_bool_decide as Hc; [subst c|done].
  destruct (file_segments api (S (clock w)) fid) as [c' s|]; [|done].
  case_bool_decide as Hc'; [subst c'|done].
  intros [= <- _]. exists d, s. repeat split.
  - apply lookup_insert_eq.
  - intros k Hk. by apply lookup_insert_ne.
Qed.

(** X11. A transport failure of the details read ends
    [fetch_and_combine_file_info] with that error and without the segments
    read; a transport failure of the segments read ends it after both.
    However it ends, the call leaves the cache as it is. *)
Theorem aggregator_transport_failure (fid : string) (w : world) :
  (file_details api (clock w) fid = TransportFailure ->
   exists w',
     fetch_and_combine_file_info api fid w = (Raise TransportError, w') /\
     trace w' = trace w ++ [EvGetDetails fid]) /\
  (forall d,
     file_details api (clock w) fid = Response 200 d ->
     file_segments api (S (clock w)) fid = TransportFailure ->
     exists w',
       fetch_and_combine_file_info api fid w = (Raise TransportError, w') /\
       trace w' = trace w ++ [EvGetDetails fid; EvGetSegments fid]) /\
  (files (fetch_and_combine_file_info api fid w).2 = files w /\
   files_unprocessed (fetch_and_combine_file_info api fid w).2 = files_unprocessed w /\
   last_file_index (fetch_and_combine_file_info api fid w).2 = last_file_index w).
Proof.
  rewrite fetch_and_combine_file_info_eq. cbv zeta. split; [|split].
  - intros ->. by eexists.
  - intros d -> ->. simpl. eexists. split; [done|]. simpl. by rewrite <- app_assoc.
  - destruct (file_details api (clock w) fid) as [c d|]; [|done].
    destruct (bool_decide (c = 200)); [|done].
    destruct (file_segments api (S (clock w)) fid) as [c' s|]; [|done].
    by destruct (bool_decide (c' = 200)).
Qed.



Lemma wf_NoDup_oid (w : world) : wf w -> NoDup (map oid (files_unprocessed w)).
Proof.
  intros (Ho & _). unfold all_files in Ho. rewrite map_app in Ho.
  by apply NoDup_app in Ho as (_ & _ & ?).
Qed.






(** X4. At every reachable state, every object of [files] has status
    "FINISHED". *)
Theorem files_all_finished (w : world) :
  reachable api w ->
  Forall (fun f => status f = Some "FINISHED") (files w).
Proof.
  intros Hr.
  cut (wf w /\ Forall (fun f => is_complete f = true) (files w)).
  { intros [_ H]. eapply Forall_impl; [exact H|].
    intros f Hf. by apply bool_decide_eq_true in Hf. }
  revert w Hr.
  apply (rtc_ind_r (fun w => wf w /\ Forall (fun f => is_complete f = true) (files w)) init).
  - split; [apply wf_init|constructor].
  - intros w w' _ Hs [Hwf Hc]. split; [by apply (wf_step api w)|].
    destruct Hs as [w|w|w e|w fid].
    + destruct (poll_event_loop_body_spec api w) as (w' & evs & -> & Hf & _).
      simpl. by rewrite Hf.
    + destruct (check_pass api w) as [r w'] eqn:Hp. simpl.
      destruct (check_pass_spec _ _ _ _ (wf_NoDup_oid _ Hwf) Hp) as (l1 & _ & _ & _ & Hr).
      destruct r as [c|e].
      * destruct Hr as (-> & -> & _). apply Forall_app. split; [done|].
        apply Forall_forall. by intros f [_ ?]%elem_of_filter_bool.
      * by destruct Hr as (-> & _).
    + done.
    + by destruct (get_file_frame api fid w) as (-> & _).
Qed.

Lemma sorted_seq (a n : nat) : StronglySorted lt (seq a n).
Proof.
  revert a. induction n as [|n IH]; intros a; simpl; [constructor|].
  apply StronglySorted_cons. split; [|apply IH].
  apply Forall_forall. intros x Hx%elem_of_seq. lia.
Qed.

Lemma sorted_filter (P : FileInfoCache -> bool) (l : list FileInfoCache) :
  StronglySorted lt (map index l) ->
  StronglySorted lt (map index (List.filter P l)).
Proof.
  induction l as [|f l IH]; [done|]. cbn [map List.filter].
  intros [Hf Hl]%StronglySorted_cons. destruct (P f); [|by apply IH].
  cbn [map]. apply StronglySorted_cons. split; [|by apply IH].
  rewrite Forall_forall in Hf. apply Forall_forall.
  intros i (g & -> & [Hg _]%elem_of_filter_bool)%list_elem_of_fmap.
  by apply Hf, list_elem_of_fmap_2.
Qed.

(** X5. At every reachable state, the indices of [files_unprocessed] go
    up strictly along the list. *)
Theorem pending_sorted_by_index (w : world) :
  reachable api w ->
  StronglySorted lt (map index (files_unprocessed w)).
Proof.
  intros Hr.
  cut (wf w /\ StronglySorted lt (map index (files_unprocessed w))); [by intros []|].
  revert w Hr.
  apply (rtc_ind_r
           (fun w => wf w /\ StronglySorted lt (map index (files_unprocessed w))) init).
  - split; [apply wf_init|constructor].
  - intros w w' _ Hs [Hwf Hsorted]. split; [by apply (wf_step api w)|].
    destruct Hs as [w|w|w e|w fid].
    + destruct (poll_event_loop_body_spec api w) as (w' & evs & -> & _ & Hu & _).
      simpl. rewrite Hu, map_app.
      destruct (created_maps (next_oid w) (last_file_index w)
                  (page_of (file_all api (clock w) (last_file_index w) 5)))
        as (_ & -> & _).
      apply StronglySorted_app. split; [|split; [done|apply sorted_seq]].
      intros i j Hi Hj%elem_of_seq.
      destruct Hwf as (_ & _ & _ & Hb). rewrite Forall_forall in Hb.
      unfold all_files in Hb. rewrite map_app in Hb.
      assert (i < last_file_index w) by (apply Hb, elem_of_app; by right). lia.
    + destruct (check_pass api w) as [r w'] eqn:Hp. simpl.
      destruct (check_pass_spec _ _ _ _ (wf_NoDup_oid _ Hwf) Hp) as (l1 & HF & _ & _ & Hr).
      destruct (refreshed_maps _ _ HF) as (_ & Hi & _). rewrite <- Hi in Hsorted.
      destruct r as [c|e].
      * destruct Hr as (_ & _ & ->). by apply sorted_filter.
      * by destruct Hr as (_ & ->).
    + done.
    + by destruct (get_file_frame api fid w) as (_ & -> & _).
Qed.

(** X8. Along any steps, [files] only grows at its end: what is in it
    stays, at its place and as it is. *)
Theorem files_append_only (w w' : world) :
  rtc (step api) w w' -> files w `prefix_of` files w'.
Proof.
  induction 1 as [|w w1 w' Hs _ IH]; [done|].
  transitivity (files w1); [|done]. clear IH.
  destruct Hs as [w|w|w e|w fid].
  - destruct (poll_event_loop_body_spec api w) as (w2 & evs & -> & Hf & _).
    simpl. by rewrite Hf.
  - destruct (check_pass api w) as [r w2] eqn:Hp.
    by destruct (check_pass_frame _ _ _ Hp) as (_ & _ & ?).
  - done.
  - by destruct (get_file_frame api fid w) as (-> & _).
Qed.

(** X9. The file_id held at an index never changes: an object held after
    any steps with the index of an object held before them has its
    file_id. *)
Theorem file_id_at_index_immutable (w w' : world) (f g : FileInfoCache) :
  wf w ->
  rtc (step api) w w' ->
  f ∈ files w ++ files_unprocessed w ->
  g ∈ files w' ++ files_unprocessed w' ->
  index g = index f ->
  file_id g = file_id f.
Proof.
  intros Hwf Hsteps Hf.
  assert (Hi : index f < last_file_index w).
  { destruct Hwf as (_ & _ & _ & Hb). rewrite Forall_forall in Hb.
    by apply Hb, list_elem_of_fmap_2. }
  assert (Hq : forall g, g ∈ all_files w -> index g = index f -> file_id g = file_id f).
  { intros h Hh E. destruct Hwf as (_ & Hnd & _).
    by rewrite (NoDup_map_inj index (all_files w) h f Hnd Hh Hf E). }
  clear Hf. revert g. induction Hsteps as [|w w1 w' Hs _ IH]; [exact Hq|].
  destruct (step_objects _ _ _ Hs Hwf) as (_ & Hl & _ & Hu & Hfs).
  apply IH; [by apply (wf_step api w)|lia|].
  intros g [Hg|Hg]%elem_of_app E.
  - destruct (Hfs g Hg) as [Hg'|(h & Hh & _ & Ei & Ef)].
    + apply Hq; [apply elem_of_app; by left|done].
    + rewrite Ef. apply Hq; [apply elem_of_app; by right|congruence].
  - destruct (Hu g Hg) as [(h & Hh & _ & Ei & Ef)|(_ & ? & _)]; [|lia].
    rewrite Ef. apply Hq; [apply elem_of_app; by right|congruence].
Qed.


(** X14. With an upstream listing that gives a file_id at one index only,
    at every reachable state the lookup of a file_id carried by an object
    of [files_unprocessed] answers 404 and does nothing else. *)
Theorem pending_lookup_not_found (w : world) (f : FileInfoCache) (fid : string) :
  listing_unique api ->
  reachable api w ->
  f ∈ files_unprocessed w ->
  file_id f = Some fid ->
  get_file api fid w = (Ok (mkJSONResponse not_found 404), w).
Proof.
  intros Huniq [Hwf Hd]%delivered_reachable Hf Hfid.
  assert (Hnone : Forall (fun x => file_id x <> Some fid) (files w)).
  { apply Forall_forall. intros g Hg E. rewrite Forall_forall in Hd.
    destruct (Hd f) as (t1 & o1 & l1 & b1 & k1 & e1 & H1 & K1 & F1 & I1);
      [apply elem_of_app; by right|].
    destruct (Hd g) as (t2 & o2 & l2 & b2 & k2 & e2 & H2 & K2 & F2 & I2);
      [apply elem_of_app; by left|].
    assert (Ei : index f = index g).
    { rewrite <- I1, <- I2. apply (Huniq _ _ _ _ _ _ _ _ _ _ _ _ H1 K1 H2 K2).
      congruence. }
    destruct Hwf as (_ & Hi & _). unfold all_files in Hi. rewrite map_app in Hi.
    apply NoDup_app in Hi as (_ & Hdis & _).
    apply (Hdis (index g)); [by apply list_elem_of_fmap_2|].
    rewrite <- Ei. by apply list_elem_of_fmap_2. }
  apply find_none_iff in Hnone. unfold get_file. monad_unfold. by rewrite Hnone.
Qed.

(** X15. With nothing in [files_unprocessed], a turn of the checker's
    loop makes no request and changes nothing: it only sleeps 5. *)
Theorem check_on_empty_only_sleeps (w : world) :
  files_unprocessed w = [] ->
  check_event_loop_body api w = (Ok tt, emit (EvSleep 5) w).
Proof.
  intros Hu. rewrite check_event_loop_body_eq, check_file_status_eq, check_pass_unfold, Hu.
  simpl. unfold ret. simpl. unfold set_files, set_files_unprocessed. simpl.
  by rewrite app_nil_r, world_eta.
Qed.


(** X17. An in-progress object whose status fetch answers with its own
    file_id takes the status of the answer: when the pass ends, the object
    with that status is in [files] if the status is "FINISHED", still in
    [files_unprocessed] if it is "PROCESSING", and in neither otherwise. *)
Theorem status_update_applied (w w1 w' : world) (pre post completed : list FileInfoCache)
    (f : FileInfoCache) (cf : list FileInfoCache * list FileInfoCache)
    (st : entry) (page : list entry) :
  wf w ->
  files_unprocessed w = pre ++ f :: post ->
  check_each api pre 0 [] [] w = (Ok cf, w1) ->
  is_processing f = true ->
  (fetch_files_info api (index f) 1 w1).1 = Ok (st :: page) ->
  fileId st = file_id f ->
  check_pass api w = (Ok completed, w') ->
  let f' := with_status (processingStatus st) f in
  (is_complete f' = true -> f' ∈ files w') /\
  (is_processing f' = true -> f' ∈ files_unprocessed w') /\
  (is_other f' = true ->
   (oid f ∉ map oid (files w')) /\ (oid f ∉ map oid (files_unprocessed w'))).
Proof.
  intros Hwf Hfu Hpre Hp Hfetch Hid Hpass f'.
  pose proof (wf_NoDup_oid _ Hwf) as Hnd.
  assert (Hs : status_fetch api (clock w1) f = Ok (processingStatus st)).
  { rewrite fetch_files_info_eq in Hfetch. unfold status_fetch. simpl in Hfetch.
    destruct (file_all api (clock w1) (index f) 1) as [c b|]; [|done].
    destruct (bool_decide (c = 200)); [|done].
    injection Hfetch as ->. by rewrite bool_decide_true. }
  destruct (check_each api (files_unprocessed w) 0 [] [] w) as [[cf2|e] w2] eqn:H2;
    [|by rewrite (check_pass_raise _ _ _ _ H2) in Hpass].
  destruct (check_pass_sweep _ _ _ _ Hnd H2) as (HF & _ & Heq).
  rewrite Heq in Hpass. injection Hpass as <- <-. simpl.
  set (l1 := files_unprocessed w2) in *.
  assert (Hin : f' ∈ l1).
  { pose proof H2 as H2'.
    rewrite Hfu, check_each_app, Hpre, check_each_cons, refresh_eq, Hp, Hs in H2'.
    apply (check_each_spec _ _ [] (f :: post)) in Hpre
      as (v & pre' & u & Hv & HFpre & Hfu1 & _ & _ & _ & -> & _); [|done].
    simpl in Hfu1. rewrite app_nil_r in Hv. subst v.
    assert (Hlen : length pre' = length pre) by (symmetry; by eapply Forall2_length).
    replace (S (0 + length pre)) with (length (pre' ++ [f'])) in H2'
      by (rewrite length_app; simpl; lia).
    apply (check_each_spec _ _ (pre' ++ [f']) []) in H2'
      as (v2 & post' & u2 & _ & _ & Hfu2 & _).
    - unfold l1. rewrite Hfu2, <- app_assoc. apply elem_of_app. right. left.
    - simpl. rewrite Hfu1, app_nil_r, <- app_assoc. simpl.
      rewrite <- Hlen, <- (Nat.add_0_r (length pre')). by rewrite alter_app_r. }
  pose proof (wf_refreshed _ _ Hwf HF) as (Ho & _).
  unfold all_files in Ho. simpl in Ho. fold l1 in Ho.
  assert (Hall : f' ∈ files w ++ l1) by (apply elem_of_app; by right).
  split; [|split].
  - intros Hc. apply elem_of_app. right. by apply elem_of_filter_bool.
  - intros Hpr. by apply elem_of_filter_bool.
  - intros [Hc Hpr]%other_not_kept.
    assert (Hkey : forall g, g ∈ files w ++ l1 -> oid g = oid f -> g = f').
    { intros g Hg E. by apply (NoDup_map_inj oid (files w ++ l1)). }
    split.
    + intros (g & E & Hg)%list_elem_of_fmap.
      assert (g = f') as ->.
      { apply Hkey; [|done].
        apply elem_of_app in Hg as [Hg|[Hg _]%elem_of_filter_bool];
          apply elem_of_app; [by left|by right]. }
      apply elem_of_app in Hg as [Hg|[_ Hg]%elem_of_filter_bool]; [|congruence].
      rewrite map_app in Ho. apply NoDup_app in Ho as (_ & Hdis & _).
      apply (Hdis (oid f')); by apply list_elem_of_fmap_2.
    + intros (g & E & [Hg Hgp]%elem_of_filter_bool)%list_elem_of_fmap.
      assert (g = f') as -> by (apply Hkey; [apply elem_of_app; by right|done]).
      congruence.
Qed.

(** X18. The cursor never moves back. *)
Theorem cursor_monotone (w w' : world) :
  rtc (step api) w w' -> last_file_index w <= last_file_index w'.
Proof.
  induction 1 as [|w w1 w' Hs _ IH]; [done|].
  etransitivity; [|exact IH]. clear IH.
  destruct Hs as [w|w|w e|w fid].
  - destruct (poll_event_loop_body_spec api w) as (w2 & evs & -> & _ & _ & Hl & _).
    simpl. lia.
  - destruct (check_pass api w) as [r w2] eqn:Hp.
    destruct (check_pass_frame _ _ _ Hp) as (Hl & _). simpl. lia.
  - done.
  - destruct (get_file_frame api fid w) as (_ & _ & Hl & _). lia.
Qed.

End MoreProperties.

(** ** These properties at work *)

Lemma two_files_checked_reachable : reachable two_files two_files_checked.
Proof.
  unfold reachable, two_files_checked.
  eapply rtc_l; [apply step_poll|]. apply check_event_loop_body_steps.
Qed.

Lemma two_files_unique : listing_unique two_files.
Proof.
  apply listing_of_unique. simpl.
  apply NoDup_cons. split; [|apply NoDup_singleton].
  by intros [=]%list_elem_of_singleton.
Qed.

Definition three_listed (second : http_result (list entry)) : world :=
  (poll_event_loop_body (three_in_progress second) init).2.

Definition three_checked (second : http_result (list entry)) : world :=
  (check_event_loop_body (three_in_progress second) (three_listed second)).2.

Lemma three_checked_reachable (second : http_result (list entry)) :
  reachable (three_in_progress second) (three_checked second).
Proof.
  unfold reachable, three_checked, three_listed.
  eapply rtc_l; [apply step_poll|]. apply check_event_loop_body_steps.
Qed.


Lemma files_all_finished_witness :
  Forall (fun f => status f = Some "FINISHED") (files two_files_checked).
Proof.
  apply (files_all_finished two_files two_files_checked two_files_checked_reachable).
Defined.

Lemma pending_sorted_by_index_witness :
  length (files_unprocessed (three_checked unavailable)) = 3 /\
  StronglySorted lt (map index (files_unprocessed (three_checked unavailable))).
Proof.
  split; [vm_compute; reflexivity|].
  apply (pending_sorted_by_index (three_in_progress unavailable)), three_checked_reachable.
Defined.



Lemma files_append_only_witness :
  files (one_file_checked a_wav) = [mkFileInfoCache 0 0 (Some "a") FINISHED] /\
  files (one_file_checked a_wav)
    `prefix_of` files (poll_event_loop_body (one_file a_wav) (one_file_checked a_wav)).2.
Proof.
  split; [vm_compute; reflexivity|].
  apply (files_append_only (one_file a_wav)), rtc_once, step_poll.
Defined.

Lemma file_id_at_index_immutable_witness :
  file_id (mkFileInfoCache 0 0 (Some "a") FINISHED) = file_id rec_a.
Proof.
  apply (file_id_at_index_immutable (one_file a_wav)
           (one_file_listed a_wav) (one_file_checked a_wav)).
  - apply wf_poll, wf_init.
  - apply check_event_loop_body_steps.
  - vm_compute. left.
  - vm_compute. left.
  - reflexivity.
Defined.

Lemma merged_payload_lookup_witness :
  exists d s,
    file_details (one_file a_wav) (clock (one_file_checked a_wav)) "a" = Response 200 d /\
    file_segments (one_file a_wav) (S (clock (one_file_checked a_wav))) "a"
      = Response 200 s /\
    (<["segments" := JList [JStr "hello"]]> {[ "name" := JStr "a.wav" ]} : gmap string json)
      !! "segments" = Some (JList s) /\
    forall k, k <> "segments" ->
      (<["segments" := JList [JStr "hello"]]> {[ "name" := JStr "a.wav" ]} : gmap string json)
        !! k = d !! k.
Proof.
  eapply (merged_payload_lookup (one_file a_wav) "a" (one_file_checked a_wav)).
  vm_compute. reflexivity.
Defined.


Lemma pending_lookup_not_found_witness :
  get_file two_files "b" two_files_checked
    = (Ok (mkJSONResponse not_found 404), two_files_checked).
Proof.
  apply (pending_lookup_not_found two_files two_files_checked rec_b "b").
  - apply two_files_unique.
  - apply two_files_checked_reachable.
  - vm_compute. left.
  - reflexivity.
Defined.

Lemma check_on_empty_only_sleeps_witness :
  check_event_loop_body down init = (Ok tt, emit (EvSleep 5) init).
Proof. apply (check_on_empty_only_sleeps down init). reflexivity. Defined.


Lemma status_update_applied_witness :
  (is_complete (with_status FINISHED rec_a) = true ->
   with_status FINISHED rec_a
     ∈ files (check_pass (one_file a_wav) (one_file_listed a_wav)).2) /\
  (is_processing (with_status FINISHED rec_a) = true ->
   with_status FINISHED rec_a
     ∈ files_unprocessed (check_pass (one_file a_wav) (one_file_listed a_wav)).2) /\
  (is_other (with_status FINISHED rec_a) = true ->
   (oid rec_a ∉ map oid (files (check_pass (one_file a_wav) (one_file_listed a_wav)).2)) /\
   (oid rec_a ∉ map oid
      (files_unprocessed (check_pass (one_file a_wav) (one_file_listed a_wav)).2))).
Proof.
  eapply (status_update_applied (one_file a_wav) (one_file_listed a_wav) _ _
            [] [mkFileInfoCache 1 1 (Some "b") (Some "ERROR")] _ rec_a _
            (Entry (Some "a") FINISHED) []).
  - apply wf_poll, wf_init.
  - vm_compute. reflexivity.
  - vm_compute. reflexivity.
  - reflexivity.
  - vm_compute. reflexivity.
  - reflexivity.
  - vm_compute. reflexivity.
Defined.

Lemma cursor_monotone_witness :
  last_file_index init <= last_file_index two_files_checked.
Proof. apply (cursor_monotone two_files), two_files_checked_reachable. Defined.
